(** * TFRCTPowerClient: the RCT Power protocol client of TFNetwork

    A shallow embedding of [src/TFRCTPowerClient.cpp]: the CRC16 checksum,
    the request encoder of [tick_hook], the byte-at-a-time decoder of
    [receive_hook] and the transaction scheduler ([read], [tick_hook],
    [close_hook], [finish_pending_transaction], [finish_all_transactions]).

    Machine integers are [Z] with their wrap-around written out, byte arrays
    are lists of [Z] updated by index, the linked list of scheduled
    transactions is a list in link order, and the effects the class has on
    its surroundings (callbacks invoked, objects deleted, buffers sent,
    disconnects requested) are recorded in a trace carried by the client. *)

From stdpp Require Import prelude strings sorting.
From Stdlib Require Import ZArith Lia.

Local Open Scope Z_scope.

(** ** Machine integers *)

Definition u8 (z : Z) : Z := z mod 2 ^ 8.
Definition u16 (z : Z) : Z := z mod 2 ^ 16.
Definition u32 (z : Z) : Z := z mod 2 ^ 32.

(** ** crc16ccitt *)

(** One round of the inner loop, for bit index [k] of [byte]:
    [bit = (byte >> (7 - k) & 1) == 1], [c15 = ((checksum >> 15) & 1) == 1],
    [checksum <<= 1] on a [uint32_t], then the conditional xor. *)
Definition crc16ccitt_bit (byte : Z) (checksum : Z) (k : Z) : Z :=
  let bit := Z.land (Z.shiftr byte (7 - k)) 1 =? 1 in
  let c15 := Z.land (Z.shiftr checksum 15) 1 =? 1 in
  let checksum := u32 (Z.shiftl checksum 1) in
  if xorb c15 bit then Z.lxor checksum 0x1021 else checksum.

(** The body of the outer loop: eight rounds, then [checksum &= 0xFFFF]. *)
Definition crc16ccitt_byte (checksum : Z) (byte : Z) : Z :=
  Z.land (fold_left (crc16ccitt_bit byte) [0; 1; 2; 3; 4; 5; 6; 7] checksum) 0xFFFF.

(** [crc16ccitt(buffer, length)]: the first [length] bytes of [buffer],
    from [checksum = 0xFFFF]; the result is converted to [uint16_t]. *)
Definition crc16ccitt (buffer : list Z) (length : nat) : Z :=
  u16 (Z.land (fold_left crc16ccitt_byte (take length buffer) 0xFFFF) 0xFFFF).

(** The checksum as the specification words it: a 16-bit accumulator, and per
    bit (most significant first) [carry] = bit 15 of the accumulator, a left
    shift by one within 16 bits, and the xor with the polynomial when
    [carry XOR currentBit]. *)
Definition ccitt_false_bit (byte : Z) (acc : Z) (k : Z) : Z :=
  let carry := Z.testbit acc 15 in
  let current := Z.testbit byte (7 - k) in
  let acc := (2 * acc) mod 2 ^ 16 in
  if xorb carry current then Z.lxor acc 0x1021 else acc.

Definition ccitt_false_byte (acc : Z) (byte : Z) : Z :=
  fold_left (ccitt_false_bit byte) [0; 1; 2; 3; 4; 5; 6; 7] acc.

Definition ccitt_false (bytes : list Z) : Z :=
  fold_left ccitt_false_byte bytes 0xFFFF mod 2 ^ 16.

(** The ASCII bytes of "123456789". *)
Definition check_input : list Z := [49; 50; 51; 52; 53; 54; 55; 56; 57].

(** ** Types of the class

    The two [enum class]es keep their scoped names. *)

Module TFRCTPowerClientTransactionResult.
Inductive t :=
| Success
| InvalidArgument
| Aborted
| NoTransactionAvailable
| NotConnected
| DisconnectedByPeer
| SendFailed
| ReceiveFailed
| Timeout
| ChecksumMismatch.
End TFRCTPowerClientTransactionResult.

Module TFGenericTCPClientDisconnectReason.
Inductive t :=
| SocketReceiveFailed
| SocketSendFailed
| DisconnectedByPeer.
End TFGenericTCPClientDisconnectReason.

Module Result := TFRCTPowerClientTransactionResult.
Module Reason := TFGenericTCPClientDisconnectReason.

(** [micros_t]: a signed count of microseconds. *)
Definition micros_t := Z.

(** A C [float], by its IEEE-754 single-precision bit pattern. *)
Record float := { float_bits : Z }.

(** [NAN] of [math.h]: the quiet NaN. *)
Definition NAN : float := {| float_bits := 0x7FC00000 |}.

(** A [TFRCTPowerClientTransactionCallback] is a [std::function]: it is empty
    ([None]) or holds a callable, named here by a number; what the callable
    does when invoked is given by the environment below. *)
Definition TFRCTPowerClientTransactionCallback := option nat.

(** A transaction object. [addr] is the address [new] returned for it, which
    is the identity of the object; the [next] link is the position in the
    list that holds it. *)
Record TFRCTPowerClientTransaction := {
  addr : nat;
  id : Z;
  timeout : micros_t;
  callback : TFRCTPowerClientTransactionCallback
}.

(** What one [send] call reports: everything written, or a failure with the
    [errno] it left. *)
Inductive SendResult :=
| Sent
| SendError (saved_errno : Z).

(** The effects on the surroundings, in the order the code performs them. *)
Inductive Event :=
| EvDelete (transaction : TFRCTPowerClientTransaction)
| EvCallback (owner : option nat) (k : nat) (result : Result.t) (value : float)
| EvBadFunctionCall
| EvSend (buffer : list Z) (result : SendResult)
| EvDisconnect (reason : Reason.t) (error_number : Z).

(** The members of [TFRCTPowerClient] the source file uses. [socket_fd]
    belongs to the base class, which alone assigns it. [heap_next] is the
    address the next [new] returns and [trace] the effects so far. *)
Record TFRCTPowerClient := {
  socket_fd : Z;
  scheduled_transaction_head : list TFRCTPowerClientTransaction;
  pending_transaction : option TFRCTPowerClientTransaction;
  pending_transaction_deadline : micros_t;
  wait_for_start : bool;
  last_received_byte : Z;
  pending_response : list Z;
  pending_response_used : nat;
  bootloader_magic_number : Z;
  bootloader_last_detected : micros_t;
  heap_next : nat;
  trace : list Event
}.

Definition set_callback (v : TFRCTPowerClientTransactionCallback)
  (t : TFRCTPowerClientTransaction) : TFRCTPowerClientTransaction :=
  {| addr := addr t; id := id t; timeout := timeout t; callback := v |}.

Definition set_socket_fd (v : Z) (c : TFRCTPowerClient) : TFRCTPowerClient :=
  {| socket_fd := v;
     scheduled_transaction_head := scheduled_transaction_head c;
     pending_transaction := pending_transaction c;
     pending_transaction_deadline := pending_transaction_deadline c;
     wait_for_start := wait_for_start c;
     last_received_byte := last_received_byte c;
     pending_response := pending_response c;
     pending_response_used := pending_response_used c;
     bootloader_magic_number := bootloader_magic_number c;
     bootloader_last_detected := bootloader_last_detected c;
     heap_next := heap_next c;
     trace := trace c |}.

Definition set_scheduled_transaction_head (v : list TFRCTPowerClientTransaction)
  (c : TFRCTPowerClient) : TFRCTPowerClient :=
  {| socket_fd := socket_fd c;
     scheduled_transaction_head := v;
     pending_transaction := pending_transaction c;
     pending_transaction_deadline := pending_transaction_deadline c;
     wait_for_start := wait_for_start c;
     last_received_byte := last_received_byte c;
     pending_response := pending_response c;
     pending_response_used := pending_response_used c;
     bootloader_magic_number := bootloader_magic_number c;
     bootloader_last_detected := bootloader_last_detected c;
     heap_next := heap_next c;
     trace := trace c |}.

Definition set_pending_transaction (v : option TFRCTPowerClientTransaction)
  (c : TFRCTPowerClient) : TFRCTPowerClient :=
  {| socket_fd := socket_fd c;
     scheduled_transaction_head := scheduled_transaction_head c;
     pending_transaction := v;
     pending_transaction_deadline := pending_transaction_deadline c;
     wait_for_start := wait_for_start c;
     last_received_byte := last_received_byte c;
     pending_response := pending_response c;
     pending_response_used := pending_response_used c;
     bootloader_magic_number := bootloader_magic_number c;
     bootloader_last_detected := bootloader_last_detected c;
     heap_next := heap_next c;
     trace := trace c |}.

Definition set_pending_transaction_deadline (v : micros_t)
  (c : TFRCTPowerClient) : TFRCTPowerClient :=
  {| socket_fd := socket_fd c;
     scheduled_transaction_head := scheduled_transaction_head c;
     pending_transaction := pending_transaction c;
     pending_transaction_deadline := v;
     wait_for_start := wait_for_start c;
     last_received_byte := last_received_byte c;
     pending_response := pending_response c;
     pending_response_used := pending_response_used c;
     bootloader_magic_number := bootloader_magic_number c;
     bootloader_last_detected := bootloader_last_detected c;
     heap_next := heap_next c;
     trace := trace c |}.

Definition set_wait_for_start (v : bool) (c : TFRCTPowerClient) : TFRCTPowerClient :=
  {| socket_fd := socket_fd c;
     scheduled_transaction_head := scheduled_transaction_head c;
     pending_transaction := pending_transaction c;
     pending_transaction_deadline := pending_transaction_deadline c;
     wait_for_start := v;
     last_received_byte := last_received_byte c;
     pending_response := pending_response c;
     pending_response_used := pending_response_used c;
     bootloader_magic_number := bootloader_magic_number c;
     bootloader_last_detected := bootloader_last_detected c;
     heap_next := heap_next c;
     trace := trace c |}.

Definition set_last_received_byte (v : Z) (c : TFRCTPowerClient) : TFRCTPowerClient :=
  {| socket_fd := socket_fd c;
     scheduled_transaction_head := scheduled_transaction_head c;
     pending_transaction := pending_transaction c;
     pending_transaction_deadline := pending_transaction_deadline c;
     wait_for_start := wait_for_start c;
     last_received_byte := v;
     pending_response := pending_response c;
     pending_response_used := pending_response_used c;
     bootloader_magic_number := bootloader_magic_number c;
     bootloader_last_detected := bootloader_last_detected c;
     heap_next := heap_next c;
     trace := trace c |}.

Definition set_pending_response (v : list Z) (c : TFRCTPowerClient) : TFRCTPowerClient :=
  {| socket_fd := socket_fd c;
     scheduled_transaction_head := scheduled_transaction_head c;
     pending_transaction := pending_transaction c;
     pending_transaction_deadline := pending_transaction_deadline c;
     wait_for_start := wait_for_start c;
     last_received_byte := last_received_byte c;
     pending_response := v;
     pending_response_used := pending_response_used c;
     bootloader_magic_number := bootloader_magic_number c;
     bootloader_last_detected := bootloader_last_detected c;
     heap_next := heap_next c;
     trace := trace c |}.

Definition set_pending_response_used (v : nat) (c : TFRCTPowerClient) : TFRCTPowerClient :=
  {| socket_fd := socket_fd c;
     scheduled_transaction_head := scheduled_transaction_head c;
     pending_transaction := pending_transaction c;
     pending_transaction_deadline := pending_transaction_deadline c;
     wait_for_start := wait_for_start c;
     last_received_byte := last_received_byte c;
     pending_response := pending_response c;
     pending_response_used := v;
     bootloader_magic_number := bootloader_magic_number c;
     bootloader_last_detected := bootloader_last_detected c;
     heap_next := heap_next c;
     trace := trace c |}.

Definition set_bootloader_magic_number (v : Z) (c : TFRCTPowerClient) : TFRCTPowerClient :=
  {| socket_fd := socket_fd c;
     scheduled_transaction_head := scheduled_transaction_head c;
     pending_transaction := pending_transaction c;
     pending_transaction_deadline := pending_transaction_deadline c;
     wait_for_start := wait_for_start c;
     last_received_byte := last_received_byte c;
     pending_response := pending_response c;
     pending_response_used := pending_response_used c;
     bootloader_magic_number := v;
     bootloader_last_detected := bootloader_last_detected c;
     heap_next := heap_next c;
     trace := trace c |}.

Definition set_bootloader_last_detected (v : micros_t) (c : TFRCTPowerClient) : TFRCTPowerClient :=
  {| socket_fd := socket_fd c;
     scheduled_transaction_head := scheduled_transaction_head c;
     pending_transaction := pending_transaction c;
     pending_transaction_deadline := pending_transaction_deadline c;
     wait_for_start := wait_for_start c;
     last_received_byte := last_received_byte c;
     pending_response := pending_response c;
     pending_response_used := pending_response_used c;
     bootloader_magic_number := bootloader_magic_number c;
     bootloader_last_detected := v;
     heap_next := heap_next c;
     trace := trace c |}.

Definition set_heap_next (v : nat) (c : TFRCTPowerClient) : TFRCTPowerClient :=
  {| socket_fd := socket_fd c;
     scheduled_transaction_head := scheduled_transaction_head c;
     pending_transaction := pending_transaction c;
     pending_transaction_deadline := pending_transaction_deadline c;
     wait_for_start := wait_for_start c;
     last_received_byte := last_received_byte c;
     pending_response := pending_response c;
     pending_response_used := pending_response_used c;
     bootloader_magic_number := bootloader_magic_number c;
     bootloader_last_detected := bootloader_last_detected c;
     heap_next := v;
     trace := trace c |}.

Definition set_trace (v : list Event) (c : TFRCTPowerClient) : TFRCTPowerClient :=
  {| socket_fd := socket_fd c;
     scheduled_transaction_head := scheduled_transaction_head c;
     pending_transaction := pending_transaction c;
     pending_transaction_deadline := pending_transaction_deadline c;
     wait_for_start := wait_for_start c;
     last_received_byte := last_received_byte c;
     pending_response := pending_response c;
     pending_response_used := pending_response_used c;
     bootloader_magic_number := bootloader_magic_number c;
     bootloader_last_detected := bootloader_last_detected c;
     heap_next := heap_next c;
     trace := v |}.

(** ** The surroundings of the class

    [TF_RCT_POWER_CLIENT_MAX_SCHEDULED_TRANSACTION_COUNT] is a macro of the
    header, which is not part of the sources at hand, and the callables are
    the caller's code: both are parameters. A callable runs on the client as
    it is at the call and leaves it as it likes, which covers callables that
    call back into [read], [tick_hook] and the other entry points. *)
Class Environment := {
  TF_RCT_POWER_CLIENT_MAX_SCHEDULED_TRANSACTION_COUNT : nat;
  callback_body : nat -> Result.t -> float -> TFRCTPowerClient -> TFRCTPowerClient
}.

(** Callables that do not touch the client. *)
Definition passive `{Environment} : Prop :=
  forall k result value c, callback_body k result value c = c.

Definition log (e : Event) (c : TFRCTPowerClient) : TFRCTPowerClient :=
  set_trace (trace c ++ [e]) c.

(** [callback(result, value)] on a [std::function]: the call is recorded and
    the callable runs; an empty one throws [std::bad_function_call]. [owner]
    is the address of the transaction the callable was moved out of, if any. *)
Definition invoke `{Environment} (owner : option nat)
  (callback : TFRCTPowerClientTransactionCallback)
  (result : Result.t) (value : float) (c : TFRCTPowerClient) : TFRCTPowerClient :=
  match callback with
  | Some k => callback_body k result value (log (EvCallback owner k result value) c)
  | None => log EvBadFunctionCall c
  end.

(** Modelled from the spec: [disconnect] is a method of the base class
    TFGenericTCPClient, which is not part of the sources at hand. By §1 and §6
    it is a notification [notifyDisconnect(reason, osErrorCode)] to the
    connection layer, so it is recorded and nothing else. *)
Definition disconnect (reason : Reason.t) (error_number : Z)
  (c : TFRCTPowerClient) : TFRCTPowerClient :=
  log (EvDisconnect reason error_number) c.

(** Modelled from the spec: [calculate_deadline] is declared in TFNetwork.h,
    which is not part of the sources at hand. By §3 the deadline is
    [now() + timeout]; [now] is the clock reading of the call. *)
Definition calculate_deadline (now : micros_t) (delay : micros_t) : micros_t :=
  now + delay.

(** Modelled from the spec: [deadline_elapsed] is declared in TFNetwork.h,
    which is not part of the sources at hand. By the glossary a deadline is
    the point in time after which the transaction is timed out. *)
Definition deadline_elapsed (now : micros_t) (deadline : micros_t) : bool :=
  deadline <? now.

(** ** read *)

Definition read `{Environment} (id : Z) (timeout : micros_t)
  (callback : TFRCTPowerClientTransactionCallback)
  (c : TFRCTPowerClient) : TFRCTPowerClient :=
  match callback with
  | None => c
  | Some _ =>
    if timeout <? 0 then invoke None callback Result.InvalidArgument NAN c
    else if socket_fd c <? 0 then invoke None callback Result.NotConnected NAN c
    else
      let scheduled_transaction_count := length (scheduled_transaction_head c) in
      if (TF_RCT_POWER_CLIENT_MAX_SCHEDULED_TRANSACTION_COUNT <=? scheduled_transaction_count)%nat
      then invoke None callback Result.NoTransactionAvailable NAN c
      else
        let transaction :=
          {| addr := heap_next c; id := id; timeout := timeout; callback := callback |} in
        let c := set_heap_next (S (heap_next c)) c in
        set_scheduled_transaction_head (scheduled_transaction_head c ++ [transaction]) c
  end.

(** ** finish_pending_transaction, finish_all_transactions *)

Definition finish_pending_transaction `{Environment} (result : Result.t) (value : float)
  (c : TFRCTPowerClient) : TFRCTPowerClient :=
  match pending_transaction c with
  | Some transaction =>
    let callback := callback transaction in
    let transaction := set_callback None transaction in
    let c := log (EvDelete transaction) c in
    let c := set_pending_transaction None c in
    let c := set_pending_transaction_deadline 0 c in
    invoke (Some (addr transaction)) callback result value c
  | None => c
  end.

(** The body of the [while] loop of [finish_all_transactions], for the
    detached object [scheduled_transaction]. *)
Definition finish_scheduled_transaction `{Environment} (result : Result.t)
  (c : TFRCTPowerClient) (scheduled_transaction : TFRCTPowerClientTransaction)
  : TFRCTPowerClient :=
  let callback := callback scheduled_transaction in
  let scheduled_transaction := set_callback None scheduled_transaction in
  let c := log (EvDelete scheduled_transaction) c in
  invoke (Some (addr scheduled_transaction)) callback result NAN c.

Definition finish_all_transactions `{Environment} (result : Result.t)
  (c : TFRCTPowerClient) : TFRCTPowerClient :=
  let c := finish_pending_transaction result NAN c in
  let scheduled_transaction := scheduled_transaction_head c in
  let c := set_scheduled_transaction_head [] c in
  fold_left (finish_scheduled_transaction result) scheduled_transaction c.

Definition check_pending_transaction_timeout `{Environment} (now : micros_t)
  (c : TFRCTPowerClient) : TFRCTPowerClient :=
  match pending_transaction c with
  | Some _ =>
    if deadline_elapsed now (pending_transaction_deadline c)
    then finish_pending_transaction Result.Timeout NAN c
    else c
  | None => c
  end.

Definition reset_pending_response (c : TFRCTPowerClient) : TFRCTPowerClient :=
  let c := set_wait_for_start true c in
  set_pending_response_used 0 c.

(** ** The request encoder of tick_hook *)

(** The characters ['+'] and ['-']. *)
Definition START : Z := 0x2B.
Definition ESCAPE : Z := 0x2D.

(** [uint8_t request[8]] after the eight assignments. *)
Definition request_frame (id : Z) : list Z :=
  let request := replicate 8 0 in
  let request := <[0%nat := 1]> request in
  let request := <[1%nat := 4]> request in
  let request := <[2%nat := u8 (Z.land (Z.shiftr id 24) 0xFF)]> request in
  let request := <[3%nat := u8 (Z.land (Z.shiftr id 16) 0xFF)]> request in
  let request := <[4%nat := u8 (Z.land (Z.shiftr id 8) 0xFF)]> request in
  let request := <[5%nat := u8 (Z.land (Z.shiftr id 0) 0xFF)]> request in
  let checksum := crc16ccitt request 6 in
  let request := <[6%nat := Z.land (Z.shiftr checksum 8) 0xFF]> request in
  let request := <[7%nat := Z.land (Z.shiftr checksum 0) 0xFF]> request in
  request.

(** One round of the escaping loop on [escaped_request] and
    [escaped_request_length]. *)
Definition escape_round (st : list Z * nat) (byte : Z) : list Z * nat :=
  let '(escaped_request, escaped_request_length) := st in
  let '(escaped_request, escaped_request_length) :=
    if (byte =? START) || (byte =? ESCAPE)
    then (<[escaped_request_length := ESCAPE]> escaped_request, S escaped_request_length)
    else (escaped_request, escaped_request_length) in
  (<[escaped_request_length := byte]> escaped_request, S escaped_request_length).

(** [escaped_request[1 + 8 * 2] = "+"], the loop over [request], and the
    [escaped_request_length] bytes handed to [send]. *)
Definition escape_request (request : list Z) : list Z :=
  let escaped_request := START :: replicate 16 0 in
  let escaped_request_length := 1%nat in
  let '(escaped_request, escaped_request_length) :=
    fold_left escape_round request (escaped_request, escaped_request_length) in
  take escaped_request_length escaped_request.

(** ** tick_hook

    [now] is the clock reading of this call and [sent] what [send] reports
    should the call reach it. *)
Definition tick_hook `{Environment} (now : micros_t) (sent : SendResult)
  (c : TFRCTPowerClient) : TFRCTPowerClient :=
  let c := check_pending_transaction_timeout now c in
  match pending_transaction c, scheduled_transaction_head c with
  | None, transaction :: next =>
    let c := set_pending_transaction (Some transaction) c in
    let c := set_scheduled_transaction_head next c in
    let c := set_pending_transaction_deadline (calculate_deadline now (timeout transaction)) c in
    let request := request_frame (id transaction) in
    let escaped_request := escape_request request in
    let c := log (EvSend escaped_request sent) c in
    match sent with
    | Sent => c
    | SendError saved_errno =>
      let c := finish_pending_transaction Result.SendFailed NAN c in
      disconnect Reason.SocketSendFailed saved_errno c
    end
  | _, _ => c
  end.

(** ** receive_hook *)

(** [errno] values of the socket layer; [EWOULDBLOCK] is defined as
    [EAGAIN] there. *)
Definition EAGAIN : Z := 11.
Definition EWOULDBLOCK : Z := EAGAIN.

(** What [recv(&received_byte, 1)] reports: a negative result with the
    [errno] it left, zero, or one byte. *)
Inductive RecvResult :=
| RecvError (error_number : Z)
| RecvClosed
| RecvByte (received_byte : Z).

(** One round of the [while] loop as the surroundings present it: the clock
    reading of the round and what [recv] reports if the round calls it. *)
Record Poll := { clock : micros_t; received : RecvResult }.

(** [pending_response[pending_response_used++] = received_byte]. *)
Definition append_pending_response (received_byte : Z) (c : TFRCTPowerClient)
  : TFRCTPowerClient :=
  let c := set_pending_response
             (<[pending_response_used c := received_byte]> (pending_response c)) c in
  set_pending_response_used (S (pending_response_used c)) c.

(** The escape handling of the loop body, from [if (wait_for_start)] to
    [last_received_byte = received_byte]. *)
Definition unescape_step (received_byte : Z) (c : TFRCTPowerClient) : TFRCTPowerClient :=
  let c :=
    if wait_for_start c then
      if (received_byte =? START) && negb (last_received_byte c =? ESCAPE)
      then set_wait_for_start false c
      else c
    else if received_byte =? START then
      if last_received_byte c =? ESCAPE
      then append_pending_response received_byte c
      else set_pending_response_used 0 c
    else if received_byte =? ESCAPE then
      if last_received_byte c =? ESCAPE
      then append_pending_response received_byte c
      else c
    else append_pending_response received_byte c in
  set_last_received_byte received_byte c.

(** The two checks that end the loop body. *)
Definition check_response_header (c : TFRCTPowerClient) : TFRCTPowerClient :=
  if (pending_response_used c =? 1)%nat && negb (pending_response c !!! 0%nat =? 5)
  then reset_pending_response c
  else if (pending_response_used c =? 2)%nat && negb (pending_response c !!! 1%nat =? 8)
  then reset_pending_response c
  else c.

(** The loop body for a byte that [recv] delivered. *)
Definition receive_byte (now : micros_t) (received_byte : Z) (c : TFRCTPowerClient)
  : TFRCTPowerClient :=
  let magic := u32 (Z.lor (Z.shiftl (bootloader_magic_number c) 8) received_byte) in
  let c := set_bootloader_magic_number magic c in
  let c := if magic =? 0x50F705AB then set_bootloader_last_detected now c else c in
  let c := unescape_step received_byte c in
  check_response_header c.

(** How the [while] loop ends: by a [return] inside it, or by its condition,
    with [pending_response] full. *)
Inductive LoopExit :=
| Returned (value : bool) (c : TFRCTPowerClient)
| BufferFull (c : TFRCTPowerClient).

(** [while (sizeof(pending_response) - pending_response_used > 0)]: the
    difference is a [size_t], positive unless the two are equal. When the
    surroundings have no further round to offer, [recv] has no data, which
    is a negative result with [EAGAIN]. *)
Fixpoint receive_loop (deadline : micros_t) (polls : list Poll) (c : TFRCTPowerClient)
  : LoopExit :=
  if (pending_response_used c =? 12)%nat then BufferFull c
  else
    match polls with
    | [] => Returned false c
    | poll :: polls =>
      if deadline_elapsed (clock poll) deadline then Returned true c
      else
        match received poll with
        | RecvError error_number =>
          if negb (error_number =? EAGAIN) && negb (error_number =? EWOULDBLOCK)
          then Returned false (disconnect Reason.SocketReceiveFailed error_number c)
          else Returned false c
        | RecvClosed => Returned false (disconnect Reason.DisconnectedByPeer (-1) c)
        | RecvByte received_byte =>
          receive_loop deadline polls (receive_byte (clock poll) received_byte c)
        end
    end.

(** The [float] whose object representation is [bytes]: the union of the
    source overlays [float value] and [uint8_t bytes[4]], and the targets of
    the library store the least significant byte first. *)
Definition float_of_bytes (bytes : list Z) : float :=
  {| float_bits := bytes !!! 0%nat + bytes !!! 1%nat * 2 ^ 8
                   + bytes !!! 2%nat * 2 ^ 16 + bytes !!! 3%nat * 2 ^ 24 |}.

(** The big-endian id of [pending_response]. *)
Definition response_id (pending_response : list Z) : Z :=
  u32 (Z.lor (Z.lor (Z.lor (Z.shiftl (pending_response !!! 2%nat) 24)
                           (Z.shiftl (pending_response !!! 3%nat) 16))
                    (Z.shiftl (pending_response !!! 4%nat) 8))
             (Z.shiftl (pending_response !!! 5%nat) 0)).

(** The code after the loop: validation of the full buffer and dispatch to
    the pending transaction. *)
Definition dispatch_response `{Environment} (c : TFRCTPowerClient) : TFRCTPowerClient :=
  let id_ := response_id (pending_response c) in
  match pending_transaction c with
  | None => reset_pending_response c
  | Some transaction =>
    if negb (id transaction =? id_) then reset_pending_response c
    else
      let used := pending_response_used c in
      let actual_checksum := crc16ccitt (pending_response c) (used - 2) in
      let expected_checksum :=
        u16 (Z.lor (Z.shiftl (u16 (pending_response c !!! (used - 2)%nat)) 8)
                   (pending_response c !!! (used - 1)%nat)) in
      if negb (actual_checksum =? expected_checksum) then
        let c := reset_pending_response c in
        finish_pending_transaction Result.ChecksumMismatch NAN c
      else
        let bytes := replicate 4 0 in
        let bytes := <[0%nat := pending_response c !!! (6 + 3)%nat]> bytes in
        let bytes := <[1%nat := pending_response c !!! (6 + 2)%nat]> bytes in
        let bytes := <[2%nat := pending_response c !!! (6 + 1)%nat]> bytes in
        let bytes := <[3%nat := pending_response c !!! (6 + 0)%nat]> bytes in
        let value := float_of_bytes bytes in
        let c := reset_pending_response c in
        finish_pending_transaction Result.Success value c
  end.

(** [now] is the clock reading at entry, [10_ms] is 10000 microseconds. *)
Definition receive_hook `{Environment} (now : micros_t) (polls : list Poll)
  (c : TFRCTPowerClient) : bool * TFRCTPowerClient :=
  let deadline := calculate_deadline now 10000 in
  match receive_loop deadline polls c with
  | Returned value c => (value, c)
  | BufferFull c => (true, dispatch_response c)
  end.

(** ** close_hook *)

Definition close_hook `{Environment} (c : TFRCTPowerClient) : TFRCTPowerClient :=
  let c := set_last_received_byte 0 c in
  let c := set_bootloader_magic_number 0 c in
  let c := set_bootloader_last_detected 0 c in
  let c := reset_pending_response c in
  finish_all_transactions Result.Aborted c.

(** ** Decoding a wire buffer, and clients to start from *)

(** The escape handling applied to the bytes of [wire] in turn. *)
Definition unescape (wire : list Z) (c : TFRCTPowerClient) : TFRCTPowerClient :=
  fold_left (fun c received_byte => unescape_step received_byte c) wire c.

(** The bytes collected in [pending_response] so far. *)
Definition collected (c : TFRCTPowerClient) : list Z :=
  take (pending_response_used c) (pending_response c).

(** The escaping as the specification words it: the start marker, then each
    raw byte, preceded by ESCAPE if it is one of the two markers. *)
Definition escape_raw (byte : Z) : list Z :=
  if (byte =? START) || (byte =? ESCAPE) then [ESCAPE; byte] else [byte].

Definition wire_frame (raw : list Z) : list Z :=
  START :: flat_map escape_raw raw.

(** Whether a raw frame holds an ESCAPE byte directly followed by one of the
    two markers. *)
Fixpoint escape_clash (raw : list Z) : bool :=
  match raw with
  | [] => false
  | a :: rest =>
    match rest with
    | [] => false
    | b :: _ => ((a =? ESCAPE) && ((b =? START) || (b =? ESCAPE))) || escape_clash rest
    end
  end.

(** A client on the socket [fd] that holds no transaction and whose decoder
    is as [close_hook] leaves it. *)
Definition idle_client (fd : Z) : TFRCTPowerClient :=
  {| socket_fd := fd;
     scheduled_transaction_head := [];
     pending_transaction := None;
     pending_transaction_deadline := 0;
     wait_for_start := true;
     last_received_byte := 0;
     pending_response := replicate 12 0;
     pending_response_used := 0;
     bootloader_magic_number := 0;
     bootloader_last_detected := 0;
     heap_next := 0;
     trace := [] |}.

(** ** Frames as validation reads them, and frames to feed the decoder *)

Definition is_byte (b : Z) : Prop := 0 <= b < 256.

(** The big-endian values validation reads from a full buffer. *)
Definition frame_id (frame : list Z) : Z :=
  frame !!! 2%nat * 2 ^ 24 + frame !!! 3%nat * 2 ^ 16
  + frame !!! 4%nat * 2 ^ 8 + frame !!! 5%nat.

Definition frame_checksum (frame : list Z) : Z :=
  frame !!! 10%nat * 2 ^ 8 + frame !!! 11%nat.

Definition frame_value (frame : list Z) : float :=
  {| float_bits := frame !!! 6%nat * 2 ^ 24 + frame !!! 7%nat * 2 ^ 16
                   + frame !!! 8%nat * 2 ^ 8 + frame !!! 9%nat |}.

(** The four bytes of a 32-bit value, most significant first. *)
Definition big_endian_bytes (x : Z) : list Z :=
  [(x / 2 ^ 24) mod 2 ^ 8; (x / 2 ^ 16) mod 2 ^ 8; (x / 2 ^ 8) mod 2 ^ 8; x mod 2 ^ 8].

(** Modelled from the spec: the response of the device, which is not part of
    the sources at hand. By §6 it is command 5, length 8, the id echoed
    big-endian, the value as a big-endian IEEE-754 single and the big-endian
    checksum of the ten bytes before it. *)
Definition response_frame (id_ : Z) (value : float) : list Z :=
  let body := [5; 8] ++ big_endian_bytes id_ ++ big_endian_bytes (float_bits value) in
  let crc := ccitt_false body in
  body ++ [crc / 2 ^ 8; crc mod 2 ^ 8].

(** The rounds in which [recv] delivers the bytes of [wire], one per round,
    all at the clock reading [now]. *)
Definition deliver (now : micros_t) (wire : list Z) : list Poll :=
  map (fun b => {| clock := now; received := RecvByte b |}) wire.

(** The client a [receive_loop] ends with. *)
Definition loop_client (e : LoopExit) : TFRCTPowerClient :=
  match e with
  | Returned _ c => c
  | BufferFull c => c
  end.

(** Two transactions to run examples on, and a client on socket 3 that
    holds the first as pending, with the deadline [deadline], and the second
    as scheduled. *)
Definition transaction_a : TFRCTPowerClientTransaction :=
  {| addr := 0; id := 7; timeout := 1000; callback := Some 4%nat |}.

Definition transaction_b : TFRCTPowerClientTransaction :=
  {| addr := 1; id := 9; timeout := 2000; callback := Some 5%nat |}.

Definition busy_client (deadline : micros_t) : TFRCTPowerClient :=
  set_pending_transaction_deadline deadline
    (set_pending_transaction (Some transaction_a)
       (set_scheduled_transaction_head [transaction_b]
          (set_heap_next 2 (idle_client 3)))).

(** ** Runs of the client and what a trace tells *)

(** The transactions the client holds: the pending one, then the scheduled
    ones in link order. *)
Definition outstanding (c : TFRCTPowerClient) : list TFRCTPowerClientTransaction :=
  option_list (pending_transaction c) ++ scheduled_transaction_head c.

(** The addresses of the transactions whose callback a trace shows invoked,
    and of those it shows deleted, in order and with repetitions. *)
Definition completed (tr : list Event) : list nat :=
  omap (fun e => match e with EvCallback (Some a) _ _ _ => Some a | _ => None end) tr.

Definition deleted (tr : list Event) : list nat :=
  omap (fun e => match e with EvDelete t => Some (addr t) | _ => None end) tr.

(** An effect that neither deletes a transaction nor invokes the callback
    of one. *)
Definition unowned (e : Event) : Prop :=
  match e with
  | EvDelete _ | EvCallback (Some _) _ _ _ => False
  | _ => True
  end.

(** Every transaction is deleted, its stored callback empty, immediately
    before the callable moved out of it is invoked, and no transaction is
    deleted or has its callable invoked in any other way. *)
Inductive deleted_then_invoked : list Event -> Prop :=
| dti_nil : deleted_then_invoked []
| dti_unowned e tr :
    unowned e -> deleted_then_invoked tr -> deleted_then_invoked (e :: tr)
| dti_pair t k result value tr :
    callback t = None ->
    deleted_then_invoked tr ->
    deleted_then_invoked (EvDelete t :: EvCallback (Some (addr t)) k result value :: tr).

(** The other order: the callable of a transaction is invoked and the
    transaction is deleted immediately after. *)
Inductive invoked_then_deleted : list Event -> Prop :=
| itd_nil : invoked_then_deleted []
| itd_unowned e tr :
    unowned e -> invoked_then_deleted tr -> invoked_then_deleted (e :: tr)
| itd_pair t k result value tr :
    invoked_then_deleted tr ->
    invoked_then_deleted (EvCallback (Some (addr t)) k result value :: EvDelete t :: tr).

(** The effects of finishing [t] with [result] and [value]: the object is
    deleted with its stored callback empty, then the callable that was moved
    out of it is invoked. *)
Definition finish_events (result : Result.t) (value : float)
  (t : TFRCTPowerClientTransaction) : list Event :=
  [EvDelete (set_callback None t);
   match callback t with
   | Some k => EvCallback (Some (addr t)) k result value
   | None => EvBadFunctionCall
   end].

(** The bookkeeping of a client: the transactions whose callable was invoked
    and the ones still held are, together, the transactions [new] has
    created so far, each once; the deletions are the invocations, in the
    same order, each deletion immediately before its invocation; and every
    transaction held has a callable. *)
Definition accounted (c : TFRCTPowerClient) : Prop :=
  completed (trace c) ++ map addr (outstanding c) ≡ₚ seq 0 (heap_next c)
  /\ deleted (trace c) = completed (trace c)
  /\ deleted_then_invoked (trace c)
  /\ Forall (fun t => is_Some (callback t)) (outstanding c).

(** How far a client is from holding no transaction: a scheduled one needs a
    tick to become pending and another to time out. *)
Definition weight (c : TFRCTPowerClient) : nat :=
  2 * length (scheduled_transaction_head c) + length (option_list (pending_transaction c)).

(** The client as [finish_pending_transaction] has it at the moment it
    invokes the callable moved out of the pending transaction [t]. *)
Definition released (t : TFRCTPowerClientTransaction) (c : TFRCTPowerClient)
  : TFRCTPowerClient :=
  set_pending_transaction_deadline 0
    (set_pending_transaction None (log (EvDelete (set_callback None t)) c)).

(** The calls the owner of the client makes: the four entry points, and the
    base class assigning [socket_fd] as it connects and closes. *)
Inductive Call :=
| CallRead (id_ : Z) (timeout_ : micros_t) (callback_ : TFRCTPowerClientTransactionCallback)
| CallTick (now : micros_t) (sent : SendResult)
| CallReceive (now : micros_t) (polls : list Poll)
| CallClose
| CallSocket (fd : Z).

Definition step `{Environment} (c : TFRCTPowerClient) (call : Call) : TFRCTPowerClient :=
  match call with
  | CallRead id_ timeout_ callback_ => read id_ timeout_ callback_ c
  | CallTick now sent => tick_hook now sent c
  | CallReceive now polls => snd (receive_hook now polls c)
  | CallClose => close_hook c
  | CallSocket fd => set_socket_fd fd c
  end.

Definition run `{Environment} (calls : list Call) (c : TFRCTPowerClient) : TFRCTPowerClient :=
  fold_left step calls c.

(** ** Further code of the file, and what the further properties speak of *)

(** [get_tf_rct_power_client_transaction_result_name]: the [switch] over the
    enumerators; the [return "<Unknown>"] behind it is reached by no
    enumerator. *)
Definition get_tf_rct_power_client_transaction_result_name (result : Result.t)
  : string :=
  match result with
  | Result.Success => "Success"
  | Result.InvalidArgument => "InvalidArgument"
  | Result.Aborted => "Aborted"
  | Result.NoTransactionAvailable => "NoTransactionAvailable"
  | Result.NotConnected => "NotConnected"
  | Result.DisconnectedByPeer => "DisconnectedByPeer"
  | Result.SendFailed => "SendFailed"
  | Result.ReceiveFailed => "ReceiveFailed"
  | Result.Timeout => "Timeout"
  | Result.ChecksumMismatch => "ChecksumMismatch"
  end%string.

(** The part of the loop body of [receive_hook] that keeps the beacon
    register; [receive_byte] is this, then the escape handling, then the two
    header checks. *)
Definition beacon_update (now : micros_t) (received_byte : Z) (c : TFRCTPowerClient)
  : TFRCTPowerClient :=
  let magic := u32 (Z.lor (Z.shiftl (bootloader_magic_number c) 8) received_byte) in
  let c := set_bootloader_magic_number magic c in
  if magic =? 0x50F705AB then set_bootloader_last_detected now c else c.

(** The first two bytes collected, as far as there are any, are the command
    5 and the length 8. *)
Definition header_fits (l : list Z) : Prop :=
  (forall b, l !! 0%nat = Some b -> b = 5) /\ (forall b, l !! 1%nat = Some b -> b = 8).

(** What a callback may be told: never DisconnectedByPeer or ReceiveFailed,
    and NAN with every result but Success. *)
Definition reported_ok (e : Event) : Prop :=
  match e with
  | EvCallback _ _ result value =>
    result <> Result.DisconnectedByPeer /\ result <> Result.ReceiveFailed
    /\ (result <> Result.Success -> value = NAN)
  | _ => True
  end.

(** A result and a value a callback may be told. *)
Definition result_ok (result : Result.t) (value : float) : Prop :=
  reported_ok (EvCallback None 0 result value).

(** The decoder between two bytes: the response buffer has its twelve bytes,
    the cursor is within them, and nothing is collected while the decoder
    waits for a start byte. *)
Definition decoder_ok (c : TFRCTPowerClient) : Prop :=
  length (pending_response c) = 12%nat
  /\ (pending_response_used c <= 12)%nat
  /\ (wait_for_start c = true -> pending_response_used c = 0%nat).

(** The state a client is in between calls of its entry points: the decoder
    is in order and the buffer not full, the scheduled list is within its
    bound, the transactions whose callable was invoked, in the order of the
    invocations, followed by the pending and the scheduled ones, are the
    transactions in the order of their creation, every transaction held has
    a callable, and the callbacks were told what they may be told. *)
Definition tidy `{Environment} (c : TFRCTPowerClient) : Prop :=
  (decoder_ok c /\ pending_response_used c <> 12%nat)
  /\ (length (scheduled_transaction_head c)
      <= TF_RCT_POWER_CLIENT_MAX_SCHEDULED_TRANSACTION_COUNT)%nat
  /\ (completed (trace c) ++ map addr (outstanding c) = seq 0 (heap_next c)
      /\ Forall (fun t => is_Some (callback t)) (outstanding c))
  /\ Forall reported_ok (trace c).

(** [c'] differs from [c] in the decoder and the beacon register at most:
    socket, transactions, deadline, allocation counter and trace are the
    same. *)
Definition decoder_only (c c' : TFRCTPowerClient) : Prop :=
  socket_fd c' = socket_fd c
  /\ scheduled_transaction_head c' = scheduled_transaction_head c
  /\ pending_transaction c' = pending_transaction c
  /\ pending_transaction_deadline c' = pending_transaction_deadline c
  /\ heap_next c' = heap_next c
  /\ trace c' = trace c.

(** Whether some byte of [bytes], received after the byte [previous], is
    taken for the start of a frame by a decoder that waits for one: a START
    byte that does not follow an ESCAPE byte. *)
Fixpoint starts_frame (previous : Z) (bytes : list Z) : bool :=
  match bytes with
  | [] => false
  | b :: rest => ((b =? START) && negb (previous =? ESCAPE)) || starts_frame b rest
  end.

(** What validation does with the full frame [frame], on the client [c']
    that holds it, for the pending transaction of [c]. *)
Definition validated `{Environment} (frame : list Z) (c c' : TFRCTPowerClient)
  : TFRCTPowerClient :=
  match pending_transaction c with
  | None => reset_pending_response c'
  | Some t =>
    if id t =? frame_id frame then
      if ccitt_false (take 10 frame) =? frame_checksum frame
      then invoke (Some (addr t)) (callback t) Result.Success (frame_value frame)
             (released t (reset_pending_response c'))
      else invoke (Some (addr t)) (callback t) Result.ChecksumMismatch NAN
             (released t (reset_pending_response c'))
    else reset_pending_response c'
  end.

(** Surroundings with room for eight scheduled transactions and callables
    that leave the client alone. *)
Definition quiet_environment : Environment :=
  {| TF_RCT_POWER_CLIENT_MAX_SCHEDULED_TRANSACTION_COUNT := 8;
     callback_body := fun _ _ _ c => c |}.

(** Surroundings in which the callable 4 calls [tick_hook] on the client,
    at the clock reading 0 and with a [send] that succeeds, and every other
    callable leaves the client alone. *)
Definition ticking_environment : Environment :=
  {| TF_RCT_POWER_CLIENT_MAX_SCHEDULED_TRANSACTION_COUNT := 8;
     callback_body := fun k _ _ c =>
       if (k =? 4)%nat then tick_hook (H := quiet_environment) 0 Sent c else c |}.

(** * Properties *)

(** ** crc16ccitt *)

Lemma bit_test (x n : Z) :
  0 <= n -> (Z.land (Z.shiftr x n) 1 =? 1) = Z.testbit x n.
Proof.
  intros Hn.
  change 1 with (Z.ones 1) at 1.
  rewrite Z.land_ones by lia.
  change (2 ^ 1) with 2.
  rewrite <- Z.bit0_eqb, Z.shiftr_spec by lia.
  reflexivity.
Qed.

Lemma lxor_poly_low (x : Z) :
  Z.lxor x 0x1021 mod 2 ^ 16 = Z.lxor (x mod 2 ^ 16) 0x1021.
Proof.
  rewrite <- !Z.land_ones by lia.
  apply Z.bits_inj'. intros n Hn.
  rewrite Z.lxor_spec, !Z.land_spec, Z.lxor_spec.
  destruct (Z.testbit (Z.ones 16) n) eqn:E.
  - rewrite !andb_true_r. reflexivity.
  - rewrite !andb_false_r.
    assert (Hhigh : Z.testbit 0x1021 n = false).
    { destruct (Z.lt_ge_cases n 16) as [Hlt|Hge].
      - rewrite Z.ones_spec_low in E by lia. discriminate.
      - apply (Z.bits_above_log2 0x1021 n); [lia|].
        change (Z.log2 0x1021) with 12. lia. }
    rewrite Hhigh. reflexivity.
Qed.

(** One round of the code, seen through the low 16 bits, is one round of the
    16-bit definition. *)
Lemma crc16ccitt_bit_low (byte checksum k : Z) :
  0 <= k <= 7 ->
  crc16ccitt_bit byte checksum k mod 2 ^ 16
  = ccitt_false_bit byte (checksum mod 2 ^ 16) k.
Proof.
  intros Hk. unfold crc16ccitt_bit, ccitt_false_bit.
  rewrite !bit_test by lia.
  rewrite (Z.mod_pow2_bits_low checksum 16 15) by lia.
  assert (Hshift : u32 (Z.shiftl checksum 1) mod 2 ^ 16
                   = (2 * (checksum mod 2 ^ 16)) mod 2 ^ 16).
  { unfold u32. rewrite Z.shiftl_mul_pow2 by lia.
    change (2 ^ 1) with 2.
    rewrite Z.mod_mod_divide by (exists (2 ^ 16); reflexivity).
    rewrite Z.mul_mod_idemp_r by lia. f_equal. lia. }
  destruct (xorb _ _).
  - rewrite lxor_poly_low, Hshift. reflexivity.
  - exact Hshift.
Qed.

Lemma ccitt_false_bit_range (byte acc k : Z) :
  0 <= ccitt_false_bit byte acc k < 2 ^ 16.
Proof.
  unfold ccitt_false_bit.
  assert (H : 0 <= (2 * acc) mod 2 ^ 16 < 2 ^ 16) by (apply Z.mod_pos_bound; lia).
  destruct (xorb _ _); [|exact H].
  rewrite <- (Z.mod_small _ _ H), <- lxor_poly_low.
  apply Z.mod_pos_bound. lia.
Qed.

Lemma crc16ccitt_rounds_low (byte : Z) (ks : list Z) (checksum : Z) :
  Forall (fun k => 0 <= k <= 7) ks ->
  fold_left (crc16ccitt_bit byte) ks checksum mod 2 ^ 16
  = fold_left (ccitt_false_bit byte) ks (checksum mod 2 ^ 16).
Proof.
  intros Hks. revert checksum.
  induction Hks as [|k ks Hk _ IH]; intros checksum; simpl.
  - reflexivity.
  - rewrite IH, crc16ccitt_bit_low by exact Hk. reflexivity.
Qed.

Lemma crc16ccitt_byte_low (checksum byte : Z) :
  crc16ccitt_byte checksum byte = ccitt_false_byte (checksum mod 2 ^ 16) byte.
Proof.
  unfold crc16ccitt_byte, ccitt_false_byte.
  change 0xFFFF with (Z.ones 16). rewrite Z.land_ones by lia.
  apply crc16ccitt_rounds_low.
  repeat constructor; lia.
Qed.

Lemma ccitt_false_byte_range (acc byte : Z) :
  0 <= ccitt_false_byte acc byte < 2 ^ 16.
Proof.
  unfold ccitt_false_byte. simpl. apply ccitt_false_bit_range.
Qed.

Lemma crc16ccitt_fold (bytes : list Z) (checksum : Z) :
  0 <= checksum < 2 ^ 16 ->
  fold_left crc16ccitt_byte bytes checksum = fold_left ccitt_false_byte bytes checksum
  /\ 0 <= fold_left ccitt_false_byte bytes checksum < 2 ^ 16.
Proof.
  revert checksum. induction bytes as [|byte bytes IH]; intros checksum Hc; simpl.
  - split; [reflexivity | exact Hc].
  - rewrite crc16ccitt_byte_low, Z.mod_small by exact Hc.
    apply IH, ccitt_false_byte_range.
Qed.

Lemma crc16ccitt_range (buffer : list Z) (length : nat) :
  0 <= crc16ccitt buffer length < 2 ^ 16.
Proof. unfold crc16ccitt, u16. apply Z.mod_pos_bound. lia. Qed.

Lemma crc16ccitt_take (buffer : list Z) (n : nat) :
  crc16ccitt buffer n = ccitt_false (take n buffer).
Proof.
  unfold crc16ccitt, ccitt_false, u16.
  destruct (crc16ccitt_fold (take n buffer) 0xFFFF) as [Heq Hrange]; [lia|].
  rewrite Heq. change 0xFFFF with (Z.ones 16) at 2.
  rewrite Z.land_ones by lia.
  rewrite Z.mod_mod by lia. reflexivity.
Qed.

(** C2: on every byte sequence the code's checksum, with its 32-bit
    accumulator masked once per byte, is the 16-bit CRC16/CCITT-FALSE
    definition (from 0xFFFF, most significant bit first, polynomial 0x1021
    when bit 15 and the input bit differ, low 16 bits as result), and the
    checksum of the ASCII bytes "123456789" is 0x29B1. *)
Theorem crc16ccitt_is_ccitt_false :
  (forall bytes : list Z, crc16ccitt bytes (length bytes) = ccitt_false bytes)
  /\ (forall (buffer : list Z) (n : nat),
        crc16ccitt buffer n = ccitt_false (take n buffer))
  /\ crc16ccitt check_input 9 = 0x29B1.
Proof.
  split; [|split].
  - intros bytes. rewrite crc16ccitt_take, firstn_all. reflexivity.
  - exact crc16ccitt_take.
  - vm_compute. reflexivity.
Qed.

(** ** The request encoder *)

Lemma take_S_insert (l : list Z) (n : nat) (x : Z) :
  (n < length l)%nat -> take (S n) (<[n := x]> l) = take n l ++ [x].
Proof.
  intros Hn.
  rewrite (take_S_r _ _ x) by (apply list_lookup_insert_eq; exact Hn).
  rewrite take_insert_ge by lia. reflexivity.
Qed.

(** The escaping loop appends to the first [n] bytes of the array what the
    escaping of the specification yields, as long as the array has room. *)
Lemma escape_rounds (request : list Z) (buffer : list Z) (n : nat) :
  (n + 2 * length request <= length buffer)%nat ->
  let st := fold_left escape_round request (buffer, n) in
  take (snd st) (fst st) = take n buffer ++ flat_map escape_raw request
  /\ length (fst st) = length buffer.
Proof.
  revert buffer n. induction request as [|byte request IH]; intros buffer n Hroom.
  - simpl. rewrite app_nil_r. split; reflexivity.
  - simpl in Hroom.
    change (flat_map escape_raw (byte :: request))
      with (escape_raw byte ++ flat_map escape_raw request).
    change (fold_left escape_round (byte :: request) (buffer, n))
      with (fold_left escape_round request (escape_round (buffer, n) byte)).
    assert (Hround : escape_round (buffer, n) byte
                     = if (byte =? START) || (byte =? ESCAPE)
                       then (<[S n := byte]> (<[n := ESCAPE]> buffer), S (S n))
                       else (<[n := byte]> buffer, S n)).
    { unfold escape_round. destruct ((byte =? START) || (byte =? ESCAPE)); reflexivity. }
    rewrite Hround. unfold escape_raw at 1.
    destruct ((byte =? START) || (byte =? ESCAPE)) eqn:E.
    + destruct (IH (<[S n := byte]> (<[n := ESCAPE]> buffer)) (S (S n))) as [Htake Hlen].
      { rewrite !length_insert. lia. }
      cbv zeta. rewrite Htake, Hlen, !length_insert. split; [|reflexivity].
      rewrite take_S_insert by (rewrite length_insert; lia).
      rewrite take_S_insert by lia.
      rewrite <- !app_assoc. reflexivity.
    + destruct (IH (<[n := byte]> buffer) (S n)) as [Htake Hlen].
      { rewrite length_insert. lia. }
      cbv zeta. rewrite Htake, Hlen, length_insert. split; [|reflexivity].
      rewrite take_S_insert by lia.
      rewrite <- app_assoc. reflexivity.
Qed.

Lemma escape_request_wire_frame (request : list Z) :
  (length request <= 8)%nat -> escape_request request = wire_frame request.
Proof.
  intros Hlen. unfold escape_request, wire_frame.
  pose proof (escape_rounds request (START :: replicate 16 0) 1) as H.
  destruct (fold_left escape_round request (START :: replicate 16 0, 1%nat))
    as [escaped_request escaped_request_length].
  simpl in H. destruct H as [H _]; [lia|]. exact H.
Qed.

Lemma id_byte (x n : Z) :
  0 <= n -> u8 (Z.land (Z.shiftr x n) 0xFF) = (x / 2 ^ n) mod 2 ^ 8.
Proof.
  intros Hn. unfold u8.
  change 0xFF with (Z.ones 8). rewrite Z.land_ones by lia.
  rewrite Z.shiftr_div_pow2 by lia.
  apply Z.mod_mod. lia.
Qed.

Lemma request_frame_bytes (id_ : Z) :
  let b3 := (id_ / 2 ^ 24) mod 2 ^ 8 in
  let b2 := (id_ / 2 ^ 16) mod 2 ^ 8 in
  let b1 := (id_ / 2 ^ 8) mod 2 ^ 8 in
  let b0 := id_ mod 2 ^ 8 in
  let crc := crc16ccitt [1; 4; b3; b2; b1; b0] 6 in
  request_frame id_ = [1; 4; b3; b2; b1; b0; crc / 2 ^ 8; crc mod 2 ^ 8].
Proof.
  intros b3 b2 b1 b0 crc.
  assert (Hcrc : 0 <= crc < 2 ^ 16) by apply crc16ccitt_range.
  unfold request_frame.
  rewrite !id_byte by lia.
  change (id_ / 2 ^ 0) with (id_ / 1). rewrite Z.div_1_r.
  fold b3 b2 b1 b0.
  assert (Hsix : forall x3 x2 x1 x0 : Z,
             <[5%nat := x0]> (<[4%nat := x1]> (<[3%nat := x2]> (<[2%nat := x3]>
               (<[1%nat := 4]> (<[0%nat := 1]> (replicate 8 0))))))
             = [1; 4; x3; x2; x1; x0; 0; 0]) by reflexivity.
  rewrite Hsix.
  assert (Hprefix : crc16ccitt [1; 4; b3; b2; b1; b0; 0; 0] 6 = crc).
  { subst crc. rewrite !crc16ccitt_take. reflexivity. }
  rewrite Hprefix.
  assert (Height : forall x y : Z,
             <[7%nat := y]> (<[6%nat := x]> [1; 4; b3; b2; b1; b0; 0; 0])
             = [1; 4; b3; b2; b1; b0; x; y]) by reflexivity.
  rewrite Height.
  change 0xFF with (Z.ones 8). rewrite !Z.land_ones by lia.
  rewrite !Z.shiftr_div_pow2 by lia.
  change (crc / 2 ^ 0) with (crc / 1). rewrite Z.div_1_r.
  rewrite (Z.mod_small (crc / 2 ^ 8)).
  - reflexivity.
  - split; [apply Z.div_pos; lia|].
    apply Z.div_lt_upper_bound; lia.
Qed.

Lemma length_request_frame (id_ : Z) : length (request_frame id_) = 8%nat.
Proof. rewrite request_frame_bytes. reflexivity. Qed.

Lemma check_pending_transaction_timeout_idle `{Environment} (now : micros_t)
  (c : TFRCTPowerClient) :
  pending_transaction c = None -> check_pending_transaction_timeout now c = c.
Proof. intros Hp. unfold check_pending_transaction_timeout. rewrite Hp. reflexivity. Qed.

(** C9: the request before escaping is the eight bytes command 1, length 4,
    the id most significant byte first and the checksum of these six bytes
    high byte first; the buffer handed to [send] is the START byte followed,
    for each raw byte, by ESCAPE and the byte if it is START or ESCAPE and
    by the byte alone otherwise. *)
Theorem request_encoding `{Environment} (id_ : Z) :
  let b3 := (id_ / 2 ^ 24) mod 2 ^ 8 in
  let b2 := (id_ / 2 ^ 16) mod 2 ^ 8 in
  let b1 := (id_ / 2 ^ 8) mod 2 ^ 8 in
  let b0 := id_ mod 2 ^ 8 in
  let crc := ccitt_false [1; 4; b3; b2; b1; b0] in
  request_frame id_ = [1; 4; b3; b2; b1; b0; crc / 2 ^ 8; crc mod 2 ^ 8]
  /\ (0 <= id_ < 2 ^ 32 -> id_ = b3 * 2 ^ 24 + b2 * 2 ^ 16 + b1 * 2 ^ 8 + b0)
  /\ escape_request (request_frame id_) = wire_frame (request_frame id_)
  /\ (forall (now : micros_t) (c : TFRCTPowerClient)
        (transaction : TFRCTPowerClientTransaction)
        (next : list TFRCTPowerClientTransaction),
        pending_transaction c = None ->
        scheduled_transaction_head c = transaction :: next ->
        id transaction = id_ ->
        trace (tick_hook now Sent c)
        = trace c ++ [EvSend (wire_frame (request_frame id_)) Sent]).
Proof.
  intros b3 b2 b1 b0 crc.
  assert (Hwire : escape_request (request_frame id_) = wire_frame (request_frame id_)).
  { apply escape_request_wire_frame. rewrite length_request_frame. lia. }
  split; [|split; [|split]].
  - rewrite request_frame_bytes. fold b3 b2 b1 b0.
    rewrite crc16ccitt_take. reflexivity.
  - intros Hid. subst b3 b2 b1 b0.
    change (2 ^ 32) with 4294967296 in Hid.
    change (2 ^ 24) with 16777216. change (2 ^ 16) with 65536. change (2 ^ 8) with 256.
    Z.div_mod_to_equations. lia.
  - exact Hwire.
  - intros now c transaction next Hp Hq Hid.
    unfold tick_hook.
    rewrite check_pending_transaction_timeout_idle by exact Hp.
    rewrite Hp, Hq, Hid, Hwire. reflexivity.
Qed.

Lemma request_encoding_witness :
  0x2B = (0x2B / 2 ^ 24) mod 2 ^ 8 * 2 ^ 24 + (0x2B / 2 ^ 16) mod 2 ^ 8 * 2 ^ 16
         + (0x2B / 2 ^ 8) mod 2 ^ 8 * 2 ^ 8 + 0x2B mod 2 ^ 8
  /\ trace (tick_hook (H := quiet_environment) 0 Sent
              (set_scheduled_transaction_head
                 [{| addr := 0; id := 0x2B; timeout := 5; callback := Some 0%nat |}]
                 (idle_client 3)))
     = [EvSend (wire_frame (request_frame 0x2B)) Sent].
Proof.
  destruct (request_encoding (H := quiet_environment) 0x2B) as (_ & Hbig & _ & Hsend).
  split.
  - apply Hbig. lia.
  - exact (Hsend 0 (set_scheduled_transaction_head
                      [{| addr := 0; id := 0x2B; timeout := 5; callback := Some 0%nat |}]
                      (idle_client 3)) _ [] eq_refl eq_refl eq_refl).
Defined.

(** ** The escape handling of the decoder *)

(** C1, at the id 0x2D2B: the raw request holds ESCAPE followed by START, the
    wire buffer holds each of the two behind an ESCAPE of its own, and the
    escape handling of the decoder, which takes a byte for escaped whenever
    the byte before it on the wire was ESCAPE, collects nine bytes instead
    of the eight of the raw request, so that neither the raw bytes nor the
    id come back. *)
Theorem roundtrip_0x2D2B :
  let raw := request_frame 0x2D2B in
  let wire := escape_request raw in
  let c := unescape wire (idle_client 3) in
  raw = [1; 4; 0; 0; 0x2D; 0x2B; 0x27; 0x05]
  /\ wire = [0x2B; 1; 4; 0; 0; 0x2D; 0x2D; 0x2D; 0x2B; 0x27; 0x05]
  /\ collected c = [1; 4; 0; 0; 0x2D; 0x2D; 0x2B; 0x27; 0x05]
  /\ collected c <> raw
  /\ response_id (pending_response c) <> 0x2D2B.
Proof.
  vm_compute. repeat split; congruence.
Qed.

Lemma unescape_step_escape (c : TFRCTPowerClient) :
  wait_for_start c = false ->
  (last_received_byte c =? ESCAPE) = false ->
  unescape_step ESCAPE c = set_last_received_byte ESCAPE c.
Proof. intros Hwait Hlast. unfold unescape_step. rewrite Hwait, Hlast. reflexivity. Qed.

Lemma unescape_step_escaped (b : Z) (c : TFRCTPowerClient) :
  wait_for_start c = false ->
  last_received_byte c = ESCAPE ->
  (b =? START) || (b =? ESCAPE) = true ->
  unescape_step b c = set_last_received_byte b (append_pending_response b c).
Proof.
  intros Hwait Hlast Hmarker. unfold unescape_step. rewrite Hwait, Hlast.
  change (ESCAPE =? ESCAPE) with true. cbv iota.
  destruct (b =? START); [reflexivity|].
  simpl in Hmarker. rewrite Hmarker. reflexivity.
Qed.

Lemma unescape_step_plain (b : Z) (c : TFRCTPowerClient) :
  wait_for_start c = false ->
  (b =? START) || (b =? ESCAPE) = false ->
  unescape_step b c = set_last_received_byte b (append_pending_response b c).
Proof.
  intros Hwait Hmarker. apply orb_false_elim in Hmarker as [Hb1 Hb2].
  unfold unescape_step. rewrite Hwait, Hb1, Hb2. reflexivity.
Qed.

(** Where the escape handling does invert the escaping: from a decoder that
    is collecting, the escaped form of raw bytes is collected as the raw
    bytes themselves, provided no ESCAPE byte, the last byte received
    included, is directly followed by a marker, and the buffer has room. *)
Lemma unescape_collecting (raw : list Z) (c : TFRCTPowerClient) :
  wait_for_start c = false ->
  (pending_response_used c + length raw <= length (pending_response c))%nat ->
  escape_clash (last_received_byte c :: raw) = false ->
  let c' := unescape (flat_map escape_raw raw) c in
  collected c' = collected c ++ raw /\ wait_for_start c' = false.
Proof.
  revert c. induction raw as [|b raw IH]; intros c Hwait Hroom Hclash.
  - simpl. rewrite app_nil_r. split; [reflexivity | exact Hwait].
  - assert (Hstep : exists c1,
               unescape (escape_raw b) c = c1
               /\ collected c1 = collected c ++ [b]
               /\ wait_for_start c1 = false
               /\ last_received_byte c1 = b
               /\ pending_response c1 = <[pending_response_used c := b]> (pending_response c)
               /\ pending_response_used c1 = S (pending_response_used c)).
    { assert (Hcollect : take (S (pending_response_used c))
                           (<[pending_response_used c := b]> (pending_response c))
                         = collected c ++ [b]).
      { apply take_S_insert. simpl in Hroom. lia. }
      exists (set_last_received_byte b (append_pending_response b c)).
      split; [|split_and!; solve [reflexivity | exact Hcollect | exact Hwait]].
      cbn [escape_clash] in Hclash.
      apply orb_false_elim in Hclash as [Hhere _].
      unfold escape_raw, unescape.
      destruct ((b =? START) || (b =? ESCAPE)) eqn:Hmarker.
      - rewrite andb_true_r in Hhere. cbn [fold_left].
        rewrite unescape_step_escape by assumption.
        rewrite unescape_step_escaped; [reflexivity | exact Hwait | reflexivity | exact Hmarker].
      - cbn [fold_left]. apply unescape_step_plain; assumption. }
    destruct Hstep as (c1 & Hc1 & Hcollected & Hwait1 & Hlast1 & Hbuf1 & Hused1).
    change (flat_map escape_raw (b :: raw)) with (escape_raw b ++ flat_map escape_raw raw).
    unfold unescape in *. cbv zeta. rewrite fold_left_app, Hc1.
    destruct (IH c1) as (IHc & IHw).
    + exact Hwait1.
    + rewrite Hbuf1, Hused1, length_insert. simpl in Hroom. lia.
    + rewrite Hlast1. cbn [escape_clash] in Hclash.
      destruct raw as [|b' raw']; [reflexivity|].
      apply orb_false_elim in Hclash as [_ Htail]. exact Htail.
    + rewrite IHc, Hcollected, <- app_assoc. split; [reflexivity | exact IHw].
Qed.

(** The round trip of C1 does hold for the ids whose raw request has no
    ESCAPE byte directly followed by a marker. *)
Lemma roundtrip_without_clash (id_ : Z) (c : TFRCTPowerClient) :
  escape_clash (request_frame id_) = false ->
  wait_for_start c = true ->
  last_received_byte c <> ESCAPE ->
  pending_response_used c = 0%nat ->
  length (pending_response c) = 12%nat ->
  collected (unescape (escape_request (request_frame id_)) c) = request_frame id_.
Proof.
  intros Hclash Hwait Hlast Hused Hlen.
  rewrite escape_request_wire_frame by (rewrite length_request_frame; lia).
  unfold wire_frame, unescape. cbn [fold_left].
  set (c1 := unescape_step START c).
  assert (Hc1 : wait_for_start c1 = false /\ last_received_byte c1 = START
                /\ pending_response_used c1 = 0%nat
                /\ pending_response c1 = pending_response c).
  { subst c1. unfold unescape_step. rewrite Hwait, Z.eqb_refl.
    destruct (Z.eqb_spec (last_received_byte c) ESCAPE); [contradiction|].
    repeat split. simpl. exact Hused. }
  destruct Hc1 as (Hwait1 & Hlast1 & Hused1 & Hbuf1).
  destruct (unescape_collecting (request_frame id_) c1) as (Hcollected & _).
  - exact Hwait1.
  - rewrite Hused1, Hbuf1, Hlen, length_request_frame. lia.
  - rewrite Hlast1. cbn [escape_clash].
    destruct (request_frame id_); [reflexivity | exact Hclash].
  - unfold unescape in Hcollected. rewrite Hcollected.
    unfold collected. rewrite Hused1. reflexivity.
Qed.

(** ** read *)

Lemma read_accepted `{Environment} (id_ : Z) (timeout_ : micros_t) (k : nat)
  (c : TFRCTPowerClient) :
  0 <= timeout_ ->
  0 <= socket_fd c ->
  (length (scheduled_transaction_head c)
   < TF_RCT_POWER_CLIENT_MAX_SCHEDULED_TRANSACTION_COUNT)%nat ->
  read id_ timeout_ (Some k) c
  = set_scheduled_transaction_head
      (scheduled_transaction_head c
       ++ [{| addr := heap_next c; id := id_; timeout := timeout_; callback := Some k |}])
      (set_heap_next (S (heap_next c)) c).
Proof.
  intros Ht Hfd Hroom. unfold read.
  destruct (Z.ltb_spec timeout_ 0); [lia|].
  destruct (Z.ltb_spec (socket_fd c) 0); [lia|].
  destruct (Nat.leb_spec TF_RCT_POWER_CLIENT_MAX_SCHEDULED_TRANSACTION_COUNT
              (length (scheduled_transaction_head c))); [lia | reflexivity].
Qed.

(** C4, as the code has it: [read] adds no transaction exactly when the
    callback is absent, the timeout is negative, the socket is not connected
    or the list already holds the maximum number of transactions. The last
    three report InvalidArgument, NotConnected and NoTransactionAvailable, in
    this order of precedence, by invoking the callback on the unchanged
    client before [read] returns; an absent callback is rejected in silence,
    as there is nothing to invoke. Otherwise a new transaction with the id,
    the timeout and the callback is linked at the tail of the list. *)
Theorem read_rejects_or_appends `{Environment} (id_ : Z) (timeout_ : micros_t)
  (callback_ : TFRCTPowerClientTransactionCallback) (c : TFRCTPowerClient) :
  let count := length (scheduled_transaction_head c) in
  let maximum := TF_RCT_POWER_CLIENT_MAX_SCHEDULED_TRANSACTION_COUNT in
  let report k result :=
    callback_body k result NAN (log (EvCallback None k result NAN) c) in
  (callback_ = None -> read id_ timeout_ callback_ c = c)
  /\ (forall k, callback_ = Some k -> timeout_ < 0 ->
        read id_ timeout_ callback_ c = report k Result.InvalidArgument)
  /\ (forall k, callback_ = Some k -> 0 <= timeout_ -> socket_fd c < 0 ->
        read id_ timeout_ callback_ c = report k Result.NotConnected)
  /\ (forall k, callback_ = Some k -> 0 <= timeout_ -> 0 <= socket_fd c ->
        (maximum <= count)%nat ->
        read id_ timeout_ callback_ c = report k Result.NoTransactionAvailable)
  /\ (forall k, callback_ = Some k -> 0 <= timeout_ -> 0 <= socket_fd c ->
        (count < maximum)%nat ->
        read id_ timeout_ callback_ c
        = set_scheduled_transaction_head
            (scheduled_transaction_head c
             ++ [{| addr := heap_next c; id := id_; timeout := timeout_;
                    callback := Some k |}])
            (set_heap_next (S (heap_next c)) c)).
Proof.
  intros count maximum report. subst count maximum report. unfold read.
  repeat split.
  - intros ->. reflexivity.
  - intros k -> Ht.
    destruct (Z.ltb_spec timeout_ 0); [reflexivity | lia].
  - intros k -> Ht Hfd.
    destruct (Z.ltb_spec timeout_ 0); [lia|].
    destruct (Z.ltb_spec (socket_fd c) 0); [reflexivity | lia].
  - intros k -> Ht Hfd Hfull.
    destruct (Z.ltb_spec timeout_ 0); [lia|].
    destruct (Z.ltb_spec (socket_fd c) 0); [lia|].
    destruct (Nat.leb_spec TF_RCT_POWER_CLIENT_MAX_SCHEDULED_TRANSACTION_COUNT
                (length (scheduled_transaction_head c))); [reflexivity | lia].
  - intros k -> Ht Hfd Hroom. apply read_accepted; assumption.
Qed.

Lemma read_rejects_or_appends_witness :
  read (H := quiet_environment) 7 (-1) (Some 0%nat) (idle_client 3)
  = log (EvCallback None 0 Result.InvalidArgument NAN) (idle_client 3)
  /\ read (H := quiet_environment) 7 1000 (Some 0%nat) (idle_client (-1))
     = log (EvCallback None 0 Result.NotConnected NAN) (idle_client (-1))
  /\ scheduled_transaction_head
       (read (H := quiet_environment) 7 1000 (Some 0%nat) (idle_client 3))
     = [{| addr := 0; id := 7; timeout := 1000; callback := Some 0%nat |}]
  /\ read (H := quiet_environment) 7 1000 None (idle_client 3) = idle_client 3
  /\ (let full := Nat.iter 8 (read (H := quiet_environment) 7 1000 (Some 0%nat))
                     (idle_client 3) in
      read (H := quiet_environment) 7 1000 (Some 0%nat) full
      = log (EvCallback None 0 Result.NoTransactionAvailable NAN) full).
Proof.
  split; [|split; [|split; [|split]]].
  - destruct (read_rejects_or_appends (H := quiet_environment) 7 (-1) (Some 0%nat)
                (idle_client 3)) as (_ & Hneg & _).
    apply (Hneg 0%nat); [reflexivity | lia].
  - destruct (read_rejects_or_appends (H := quiet_environment) 7 1000 (Some 0%nat)
                (idle_client (-1))) as (_ & _ & Hfd & _).
    apply (Hfd 0%nat); [reflexivity | lia | simpl; lia].
  - destruct (read_rejects_or_appends (H := quiet_environment) 7 1000 (Some 0%nat)
                (idle_client 3)) as (_ & _ & _ & _ & Hok).
    rewrite (Hok 0%nat); [reflexivity | reflexivity | lia | simpl; lia | simpl; lia].
  - destruct (read_rejects_or_appends (H := quiet_environment) 7 1000 None
                (idle_client 3)) as (Hnone & _).
    apply Hnone. reflexivity.
  - intros full.
    destruct (read_rejects_or_appends (H := quiet_environment) 7 1000 (Some 0%nat) full)
      as (_ & _ & _ & Hfull & _).
    apply (Hfull 0%nat); [reflexivity | lia | simpl; lia | simpl; lia].
Defined.

(** C4 as stated fails for the absent callback: the call is rejected, no
    transaction is added, and no result is reported, the trace of effects
    staying empty. *)
Lemma read_absent_callback_reports_nothing :
  let c := read (H := quiet_environment) 7 1000 None (idle_client 3) in
  scheduled_transaction_head c = []
  /\ trace c = []
  /\ ~ (exists owner k result value, In (EvCallback owner k result value) (trace c)).
Proof.
  simpl. repeat split. intros (owner & k & result & value & []).
Qed.

(** ** finish_pending_transaction *)

Lemma finish_pending_transaction_some `{Environment} (result : Result.t) (value : float)
  (c : TFRCTPowerClient) (t : TFRCTPowerClientTransaction) :
  pending_transaction c = Some t ->
  finish_pending_transaction result value c
  = invoke (Some (addr t)) (callback t) result value (released t c).
Proof. intros Hp. unfold finish_pending_transaction. rewrite Hp. reflexivity. Qed.

Lemma finish_pending_transaction_none `{Environment} (result : Result.t) (value : float)
  (c : TFRCTPowerClient) :
  pending_transaction c = None -> finish_pending_transaction result value c = c.
Proof. intros Hp. unfold finish_pending_transaction. rewrite Hp. reflexivity. Qed.

(** C10: when [finish_pending_transaction] invokes the callable of the
    pending transaction, the callable runs on a client whose pending slot is
    empty and whose deadline is cleared, after the transaction was deleted
    with its stored callback emptied; the scheduled list is untouched. On
    that client a further [finish_pending_transaction] or timeout check does
    nothing, a [tick_hook] with nothing scheduled does nothing, and [read]
    leaves the pending slot empty, so a callable that calls back into the
    client finds no pending transaction and cannot have the finished
    transaction's callable invoked again. *)
Theorem finish_pending_transaction_cleans_up_first `{Environment}
  (result : Result.t) (value : float) (c : TFRCTPowerClient)
  (t : TFRCTPowerClientTransaction) (k : nat) :
  pending_transaction c = Some t ->
  callback t = Some k ->
  let seen := log (EvCallback (Some (addr t)) k result value) (released t c) in
  finish_pending_transaction result value c = callback_body k result value seen
  /\ pending_transaction seen = None
  /\ pending_transaction_deadline seen = 0
  /\ trace seen = trace c ++ [EvDelete (set_callback None t);
                              EvCallback (Some (addr t)) k result value]
  /\ callback (set_callback None t) = None
  /\ scheduled_transaction_head seen = scheduled_transaction_head c
  /\ outstanding seen = scheduled_transaction_head c
  /\ (forall result' value', finish_pending_transaction result' value' seen = seen)
  /\ (forall now, check_pending_transaction_timeout now seen = seen)
  /\ (forall now sent, scheduled_transaction_head c = [] -> tick_hook now sent seen = seen)
  /\ (forall id_ timeout_,
        pending_transaction (read id_ timeout_ None seen) = None
        /\ forall k', 0 <= timeout_ -> 0 <= socket_fd c ->
            (length (scheduled_transaction_head c)
             < TF_RCT_POWER_CLIENT_MAX_SCHEDULED_TRANSACTION_COUNT)%nat ->
            pending_transaction (read id_ timeout_ (Some k') seen) = None).
Proof.
  intros Hp Hk seen.
  assert (Hnone : pending_transaction seen = None) by reflexivity.
  split_and!.
  - rewrite (finish_pending_transaction_some _ _ _ t) by exact Hp.
    unfold invoke. rewrite Hk. reflexivity.
  - exact Hnone.
  - reflexivity.
  - subst seen. simpl. rewrite <- app_assoc. reflexivity.
  - reflexivity.
  - reflexivity.
  - reflexivity.
  - intros result' value'. apply finish_pending_transaction_none. exact Hnone.
  - intros now. apply check_pending_transaction_timeout_idle. exact Hnone.
  - intros now sent Hq. unfold tick_hook.
    rewrite check_pending_transaction_timeout_idle by exact Hnone.
    rewrite Hnone. change (scheduled_transaction_head seen) with (scheduled_transaction_head c).
    rewrite Hq. reflexivity.
  - intros id_ timeout_. split; [reflexivity|].
    intros k' Ht Hfd Hroom.
    rewrite read_accepted; [reflexivity | exact Ht | exact Hfd | exact Hroom].
Qed.

Lemma finish_pending_transaction_cleans_up_first_witness :
  let t := {| addr := 0; id := 7; timeout := 1000; callback := Some 4%nat |} in
  let c := set_pending_transaction (Some t) (idle_client 3) in
  finish_pending_transaction (H := quiet_environment) Result.Timeout NAN c
  = log (EvCallback (Some 0%nat) 4 Result.Timeout NAN) (released t c).
Proof.
  intros t c.
  destruct (finish_pending_transaction_cleans_up_first (H := quiet_environment)
              Result.Timeout NAN c t 4 eq_refl eq_refl) as (Hfinish & _).
  exact Hfinish.
Defined.

(** ** tick_hook *)

(** C5: [tick_hook] first checks the pending transaction: if there is one
    and its deadline has elapsed, it is finished with Timeout, and otherwise
    nothing changes. Then, on the client as the check leaves it, if no
    transaction is pending and one is scheduled, the head of the list is
    unlinked and becomes the pending transaction, the deadline is calculated
    from the transaction's timeout at the clock reading of this call, which
    is that reading plus the timeout, and the escaped request for its id is
    handed to [send]; when [send] fails, the transaction is finished with
    SendFailed and [disconnect] is called with SocketSendFailed and the
    saved [errno]. In every other case the call ends with the check. *)
Theorem tick_hook_expires_then_promotes `{Environment} (now : micros_t)
  (sent : SendResult) (c : TFRCTPowerClient) :
  let c1 := check_pending_transaction_timeout now c in
  (forall t, pending_transaction c = Some t ->
     deadline_elapsed now (pending_transaction_deadline c) = true ->
     c1 = invoke (Some (addr t)) (callback t) Result.Timeout NAN (released t c))
  /\ (forall t, pending_transaction c = Some t ->
        deadline_elapsed now (pending_transaction_deadline c) = false ->
        c1 = c)
  /\ (pending_transaction c = None -> c1 = c)
  /\ (forall t next,
        pending_transaction c1 = None ->
        scheduled_transaction_head c1 = t :: next ->
        let promoted :=
          set_pending_transaction_deadline (calculate_deadline now (timeout t))
            (set_scheduled_transaction_head next
               (set_pending_transaction (Some t) c1)) in
        let transmitted :=
          log (EvSend (wire_frame (request_frame (id t))) sent) promoted in
        tick_hook now sent c
        = match sent with
          | Sent => transmitted
          | SendError saved_errno =>
            disconnect Reason.SocketSendFailed saved_errno
              (invoke (Some (addr t)) (callback t) Result.SendFailed NAN
                 (released t transmitted))
          end)
  /\ (pending_transaction c1 <> None \/ scheduled_transaction_head c1 = [] ->
      tick_hook now sent c = c1)
  /\ (forall delay, calculate_deadline now delay = now + delay)
  /\ (forall deadline, deadline_elapsed now deadline = true <-> deadline < now).
Proof.
  intros c1. split_and!.
  - intros t Hp Hlate. subst c1. unfold check_pending_transaction_timeout.
    rewrite Hp, Hlate. apply finish_pending_transaction_some. exact Hp.
  - intros t Hp Hearly. subst c1. unfold check_pending_transaction_timeout.
    rewrite Hp, Hearly. reflexivity.
  - intros Hp. apply check_pending_transaction_timeout_idle. exact Hp.
  - intros t next Hp Hq promoted transmitted.
    unfold tick_hook. fold c1. rewrite Hp, Hq.
    rewrite escape_request_wire_frame by (rewrite length_request_frame; lia).
    fold promoted. fold transmitted.
    destruct sent as [|saved_errno]; [reflexivity|].
    rewrite (finish_pending_transaction_some _ _ _ t) by reflexivity.
    reflexivity.
  - intros Hother. unfold tick_hook. fold c1.
    destruct (pending_transaction c1) as [p|] eqn:Hp; [reflexivity|].
    destruct Hother as [Hsome | Hq]; [congruence|].
    rewrite Hq. reflexivity.
  - reflexivity.
  - intros deadline. unfold deadline_elapsed. apply Z.ltb_lt.
Qed.

(** A transaction at address 0 for id 7 is pending with the deadline 50 and
    one at address 1 for id 9 with the timeout 2000 is scheduled: the tick
    at the clock reading 60 times out the first, promotes the second with
    the deadline 2060 and sends its request. *)
Lemma tick_hook_expires_then_promotes_witness :
  let a := {| addr := 0; id := 7; timeout := 1000; callback := Some 4%nat |} in
  let b := {| addr := 1; id := 9; timeout := 2000; callback := Some 5%nat |} in
  let c := set_pending_transaction_deadline 50
             (set_pending_transaction (Some a)
                (set_scheduled_transaction_head [b] (idle_client 3))) in
  let c' := tick_hook (H := quiet_environment) 60 Sent c in
  pending_transaction c' = Some b
  /\ pending_transaction_deadline c' = 2060
  /\ scheduled_transaction_head c' = []
  /\ trace c' = [EvDelete (set_callback None a);
                 EvCallback (Some 0%nat) 4 Result.Timeout NAN;
                 EvSend (wire_frame (request_frame 9)) Sent].
Proof.
  intros a b c c'.
  destruct (tick_hook_expires_then_promotes (H := quiet_environment) 60 Sent c)
    as (Hexpired & _ & _ & Hpromote & _).
  specialize (Hexpired a eq_refl eq_refl).
  assert (Htick : c' = log (EvSend (wire_frame (request_frame 9)) Sent)
                         (set_pending_transaction_deadline (calculate_deadline 60 2000)
                            (set_scheduled_transaction_head []
                               (set_pending_transaction (Some b)
                                  (check_pending_transaction_timeout
                                     (H := quiet_environment) 60 c))))).
  { apply (Hpromote b []); rewrite Hexpired; reflexivity. }
  rewrite Htick, Hexpired. repeat split.
Defined.

(** ** receive_hook: the loop *)

Lemma testbit_high (x k n : Z) :
  0 <= x < 2 ^ k -> 0 <= k <= n -> Z.testbit x n = false.
Proof.
  intros Hx Hk. rewrite <- (Z.mod_small x (2 ^ k)) by exact Hx.
  apply Z.mod_pow2_bits_high. lia.
Qed.

Lemma lor_disjoint (a b k : Z) :
  0 <= k -> a mod 2 ^ k = 0 -> 0 <= b < 2 ^ k -> Z.lor a b = a + b.
Proof.
  intros Hk Ha Hb.
  rewrite <- Z.add_lor_land.
  assert (Hland : Z.land a b = 0).
  { apply Z.bits_inj'. intros n Hn.
    rewrite Z.land_spec, Z.bits_0.
    destruct (Z.lt_ge_cases n k) as [Hlt|Hge].
    - assert (Hbit : Z.testbit a n = false).
      { rewrite <- (Z.mod_pow2_bits_low a k n) by lia. rewrite Ha. apply Z.bits_0. }
      rewrite Hbit. reflexivity.
    - rewrite (testbit_high b k n) by lia. apply andb_false_r. }
  rewrite Hland. lia.
Qed.

(** The id the code reads from a buffer of bytes is the big-endian value of
    bytes 2 to 5. *)
Lemma response_id_big_endian (buffer : list Z) :
  is_byte (buffer !!! 2%nat) -> is_byte (buffer !!! 3%nat) ->
  is_byte (buffer !!! 4%nat) -> is_byte (buffer !!! 5%nat) ->
  response_id buffer
  = buffer !!! 2%nat * 2 ^ 24 + buffer !!! 3%nat * 2 ^ 16
    + buffer !!! 4%nat * 2 ^ 8 + buffer !!! 5%nat.
Proof.
  unfold response_id, is_byte, u32.
  generalize (buffer !!! 2%nat), (buffer !!! 3%nat), (buffer !!! 4%nat), (buffer !!! 5%nat).
  intros b2 b3 b4 b5 H2 H3 H4 H5.
  rewrite !Z.shiftl_mul_pow2 by lia.
  change (2 ^ 0) with 1. rewrite Z.mul_1_r.
  change (2 ^ 24) with 16777216. change (2 ^ 16) with 65536. change (2 ^ 8) with 256.
  rewrite (lor_disjoint (b2 * 16777216) (b3 * 65536) 24); [| lia | | ].
  - rewrite (lor_disjoint _ (b4 * 256) 16); [| lia | | ].
    + rewrite (lor_disjoint _ b5 8); [| lia | | ].
      * apply Z.mod_small. lia.
      * change (2 ^ 8) with 256. Z.div_mod_to_equations. lia.
      * change (2 ^ 8) with 256. lia.
    + change (2 ^ 16) with 65536. Z.div_mod_to_equations. lia.
    + change (2 ^ 16) with 65536. lia.
  - change (2 ^ 24) with 16777216. Z.div_mod_to_equations. lia.
  - change (2 ^ 24) with 16777216. lia.
Qed.

(** The loop ends by its condition only with twelve bytes collected, and it
    touches neither a transaction nor the trace on the way there. *)
Lemma receive_loop_full (deadline : micros_t) (polls : list Poll)
  (c c' : TFRCTPowerClient) :
  receive_loop deadline polls c = BufferFull c' ->
  pending_response_used c' = 12%nat
  /\ pending_transaction c' = pending_transaction c
  /\ pending_transaction_deadline c' = pending_transaction_deadline c
  /\ scheduled_transaction_head c' = scheduled_transaction_head c
  /\ heap_next c' = heap_next c
  /\ socket_fd c' = socket_fd c
  /\ trace c' = trace c.
Proof.
  revert c. induction polls as [|poll polls IH]; intros c; simpl.
  - destruct (Nat.eqb_spec (pending_response_used c) 12); [|discriminate].
    intros [= <-]. repeat split. assumption.
  - destruct (Nat.eqb_spec (pending_response_used c) 12).
    { intros [= <-]. repeat split. assumption. }
    destruct (deadline_elapsed (clock poll) deadline); [discriminate|].
    destruct (received poll) as [error_number| |received_byte].
    + destruct (negb _ && negb _); discriminate.
    + discriminate.
    + intros Hloop. apply IH in Hloop.
      destruct Hloop as (Hused & Hp & Hd & Hq & Hn & Hfd & Htr).
      rewrite Hused, Hp, Hd, Hq, Hn, Hfd, Htr. clear.
      unfold receive_byte, check_response_header, unescape_step.
      repeat match goal with
             | |- context [if ?b then _ else _] => destruct b
             end; repeat split.
Qed.

Lemma is_byte_lookup (buffer : list Z) (i : nat) :
  Forall is_byte buffer -> is_byte (buffer !!! i).
Proof.
  intros Hall. rewrite list_lookup_total_alt.
  destruct (buffer !! i) as [b|] eqn:E; simpl.
  - exact (Forall_lookup_1 _ _ _ _ Hall E).
  - unfold is_byte. simpl. lia.
Qed.

Lemma expected_checksum_big_endian (hi lo : Z) :
  is_byte hi -> is_byte lo ->
  u16 (Z.lor (Z.shiftl (u16 hi) 8) lo) = hi * 2 ^ 8 + lo.
Proof.
  unfold is_byte, u16. intros Hhi Hlo.
  rewrite (Z.mod_small hi) by lia.
  rewrite Z.shiftl_mul_pow2 by lia.
  rewrite (lor_disjoint _ lo 8); [| lia | | ].
  - apply Z.mod_small. lia.
  - apply Z.mod_mul. lia.
  - change (2 ^ 8) with 256. lia.
Qed.

(** ** receive_hook: validation and dispatch *)

(** C6: when the loop of [receive_hook] completes a twelve-byte frame and no
    transaction is pending, or the big-endian id in bytes 2 to 5 differs from
    the id of the pending one, the call resets the decoder to the search for
    a start byte with nothing collected and does nothing else: the pending
    transaction, its deadline, the scheduled list and the trace of effects
    are those from before the call, so no callback is invoked. *)
Theorem stale_response_discarded `{Environment} (now : micros_t) (polls : list Poll)
  (c c' : TFRCTPowerClient) :
  receive_loop (calculate_deadline now 10000) polls c = BufferFull c' ->
  Forall is_byte (pending_response c') ->
  (pending_transaction c = None
   \/ exists t, pending_transaction c = Some t /\ id t <> frame_id (pending_response c')) ->
  receive_hook now polls c = (true, reset_pending_response c')
  /\ wait_for_start (reset_pending_response c') = true
  /\ pending_response_used (reset_pending_response c') = 0%nat
  /\ pending_transaction (reset_pending_response c') = pending_transaction c
  /\ pending_transaction_deadline (reset_pending_response c')
     = pending_transaction_deadline c
  /\ scheduled_transaction_head (reset_pending_response c')
     = scheduled_transaction_head c
  /\ trace (reset_pending_response c') = trace c.
Proof.
  intros Hloop Hbytes Hstale.
  destruct (receive_loop_full _ _ _ _ Hloop) as (Hused & Hp & Hd & Hq & _ & _ & Htr).
  split_and!; try (simpl; congruence); try reflexivity.
  unfold receive_hook. rewrite Hloop. f_equal.
  unfold dispatch_response. rewrite Hp.
  destruct Hstale as [-> | (t & -> & Hid)]; [reflexivity|].
  rewrite response_id_big_endian by (apply is_byte_lookup; exact Hbytes).
  fold (frame_id (pending_response c')).
  destruct (Z.eqb_spec (id t) (frame_id (pending_response c'))); [contradiction|].
  reflexivity.
Qed.

(** What validation does with a full frame whose id is that of the pending
    transaction [t]: the decoder is reset, and [t] is finished with
    ChecksumMismatch and NAN if the checksum of bytes 0 to 9 differs from the
    big-endian value in bytes 10 and 11, and with Success and the float of
    bytes 6 to 9 otherwise. *)
Lemma dispatch_response_matching `{Environment} (c : TFRCTPowerClient)
  (t : TFRCTPowerClientTransaction) :
  pending_response_used c = 12%nat ->
  Forall is_byte (pending_response c) ->
  pending_transaction c = Some t ->
  id t = frame_id (pending_response c) ->
  dispatch_response c
  = if ccitt_false (take 10 (pending_response c)) =? frame_checksum (pending_response c)
    then invoke (Some (addr t)) (callback t) Result.Success
           (frame_value (pending_response c)) (released t (reset_pending_response c))
    else invoke (Some (addr t)) (callback t) Result.ChecksumMismatch NAN
           (released t (reset_pending_response c)).
Proof.
  intros Hused Hbytes Hp Hid.
  unfold dispatch_response. rewrite Hp, Hused.
  rewrite response_id_big_endian by (apply is_byte_lookup; exact Hbytes).
  fold (frame_id (pending_response c)). rewrite <- Hid, Z.eqb_refl.
  change (12 - 2)%nat with 10%nat. change (12 - 1)%nat with 11%nat.
  rewrite crc16ccitt_take.
  rewrite expected_checksum_big_endian by (apply is_byte_lookup; exact Hbytes).
  fold (frame_checksum (pending_response c)).
  destruct (ccitt_false (take 10 (pending_response c)) =? frame_checksum (pending_response c)).
  - cbn [negb]. rewrite (finish_pending_transaction_some _ _ _ t) by exact Hp.
    f_equal. unfold float_of_bytes, frame_value. f_equal. simpl. lia.
  - cbn [negb]. rewrite (finish_pending_transaction_some _ _ _ t) by exact Hp.
    reflexivity.
Qed.

(** C8: when the loop of [receive_hook] completes a twelve-byte frame whose
    big-endian id is that of the pending transaction and whose bytes 10 and
    11 hold the checksum of bytes 0 to 9, the pending transaction is finished
    with Success and the float whose bit pattern is bytes 6 to 9 taken
    big-endian, byte 6 most significant; its callable runs on a client with
    the pending slot empty and the decoder reset. *)
Theorem matching_response_completes `{Environment} (now : micros_t) (polls : list Poll)
  (c c' : TFRCTPowerClient) (t : TFRCTPowerClientTransaction) (k : nat) :
  receive_loop (calculate_deadline now 10000) polls c = BufferFull c' ->
  Forall is_byte (pending_response c') ->
  pending_transaction c = Some t ->
  callback t = Some k ->
  id t = frame_id (pending_response c') ->
  ccitt_false (take 10 (pending_response c')) = frame_checksum (pending_response c') ->
  let value := frame_value (pending_response c') in
  let seen := log (EvCallback (Some (addr t)) k Result.Success value)
                (released t (reset_pending_response c')) in
  receive_hook now polls c = (true, callback_body k Result.Success value seen)
  /\ float_bits value
     = pending_response c' !!! 6%nat * 2 ^ 24 + pending_response c' !!! 7%nat * 2 ^ 16
       + pending_response c' !!! 8%nat * 2 ^ 8 + pending_response c' !!! 9%nat
  /\ pending_transaction seen = None
  /\ pending_transaction_deadline seen = 0
  /\ scheduled_transaction_head seen = scheduled_transaction_head c
  /\ trace seen = trace c ++ [EvDelete (set_callback None t);
                              EvCallback (Some (addr t)) k Result.Success value].
Proof.
  intros Hloop Hbytes Hp Hk Hid Hcrc value seen.
  destruct (receive_loop_full _ _ _ _ Hloop) as (Hused & Hp' & _ & Hq & _ & _ & Htr).
  split_and!; try reflexivity.
  - unfold receive_hook. rewrite Hloop. f_equal.
    rewrite (dispatch_response_matching c' t Hused Hbytes) by congruence.
    rewrite Hcrc, Z.eqb_refl. unfold invoke. rewrite Hk. reflexivity.
  - simpl. exact Hq.
  - simpl. rewrite Htr, <- app_assoc. reflexivity.
Qed.

(** What holds of a frame that matches the pending transaction but fails the
    checksum: the transaction is finished with ChecksumMismatch and NAN, its
    callable running on a client with the pending slot empty and the decoder
    waiting for a start byte with nothing collected; [last_received_byte] is
    left as the last byte of the frame set it. *)
Lemma checksum_mismatch_fails_pending `{Environment} (now : micros_t) (polls : list Poll)
  (c c' : TFRCTPowerClient) (t : TFRCTPowerClientTransaction) (k : nat) :
  receive_loop (calculate_deadline now 10000) polls c = BufferFull c' ->
  Forall is_byte (pending_response c') ->
  pending_transaction c = Some t ->
  callback t = Some k ->
  id t = frame_id (pending_response c') ->
  ccitt_false (take 10 (pending_response c')) <> frame_checksum (pending_response c') ->
  let seen := log (EvCallback (Some (addr t)) k Result.ChecksumMismatch NAN)
                (released t (reset_pending_response c')) in
  receive_hook now polls c = (true, callback_body k Result.ChecksumMismatch NAN seen)
  /\ pending_transaction seen = None
  /\ wait_for_start seen = true
  /\ pending_response_used seen = 0%nat
  /\ last_received_byte seen = last_received_byte c'
  /\ scheduled_transaction_head seen = scheduled_transaction_head c
  /\ trace seen = trace c ++ [EvDelete (set_callback None t);
                              EvCallback (Some (addr t)) k Result.ChecksumMismatch NAN].
Proof.
  intros Hloop Hbytes Hp Hk Hid Hcrc seen.
  destruct (receive_loop_full _ _ _ _ Hloop) as (Hused & Hp' & _ & Hq & _ & _ & Htr).
  split_and!; try reflexivity.
  - unfold receive_hook. rewrite Hloop. f_equal.
    rewrite (dispatch_response_matching c' t Hused Hbytes) by congruence.
    destruct (Z.eqb_spec (ccitt_false (take 10 (pending_response c')))
                (frame_checksum (pending_response c'))); [contradiction|].
    unfold invoke. rewrite Hk. reflexivity.
  - simpl. exact Hq.
  - simpl. rewrite Htr, <- app_assoc. reflexivity.
Qed.

Ltac bytes_done :=
  vm_compute; repeat (constructor; [split; [discriminate | reflexivity]|]); constructor.

(** A response for id 7 with the bits of 10.375 reaches the client whose
    pending transaction asks for id 7. *)
Lemma matching_response_completes_witness :
  let polls := deliver 0 (wire_frame (response_frame 7 {| float_bits := 0x41260000 |})) in
  receive_hook (H := quiet_environment) 0 polls (busy_client 1000)
  = (true,
     log (EvCallback (Some 0%nat) 4 Result.Success {| float_bits := 0x41260000 |})
       (released transaction_a
          (reset_pending_response
             (loop_client (receive_loop (calculate_deadline 0 10000) polls
                             (busy_client 1000)))))).
Proof.
  intros polls.
  destruct (matching_response_completes (H := quiet_environment) 0 polls (busy_client 1000)
              (loop_client (receive_loop (calculate_deadline 0 10000) polls
                              (busy_client 1000)))
              transaction_a 4) as (Hhook & _).
  - vm_compute. reflexivity.
  - bytes_done.
  - reflexivity.
  - reflexivity.
  - vm_compute. reflexivity.
  - vm_compute. reflexivity.
  - exact Hhook.
Defined.

(** A response for id 9 reaches the client whose pending transaction asks
    for id 7: the transaction stays pending. *)
Lemma stale_response_discarded_witness :
  let polls := deliver 0 (wire_frame (response_frame 9 {| float_bits := 0x41200000 |})) in
  let c' := snd (receive_hook (H := quiet_environment) 0 polls (busy_client 1000)) in
  wait_for_start c' = true
  /\ pending_transaction c' = Some transaction_a
  /\ trace c' = [].
Proof.
  intros polls c'.
  destruct (stale_response_discarded (H := quiet_environment) 0 polls (busy_client 1000)
              (loop_client (receive_loop (calculate_deadline 0 10000) polls
                              (busy_client 1000))))
    as (Hhook & Hwait & _ & Hp & _ & _ & Htr).
  - vm_compute. reflexivity.
  - bytes_done.
  - right. exists transaction_a. split; [reflexivity|]. vm_compute. discriminate.
  - subst c'. rewrite Hhook. split_and!; [exact Hwait | exact Hp | exact Htr].
Defined.

Lemma checksum_mismatch_fails_pending_example :
  let corrupted := <[11%nat := 0x2D]> (response_frame 7 {| float_bits := 0x41260000 |}) in
  let polls := deliver 0 (wire_frame corrupted) in
  trace (snd (receive_hook (H := quiet_environment) 0 polls (busy_client 1000)))
  = [EvDelete (set_callback None transaction_a);
     EvCallback (Some 0%nat) 4 Result.ChecksumMismatch NAN].
Proof.
  intros corrupted polls.
  destruct (checksum_mismatch_fails_pending (H := quiet_environment) 0 polls
              (busy_client 1000)
              (loop_client (receive_loop (calculate_deadline 0 10000) polls
                              (busy_client 1000)))
              transaction_a 4) as (Hhook & _ & _ & _ & _ & _ & Htr).
  - vm_compute. reflexivity.
  - bytes_done.
  - reflexivity.
  - reflexivity.
  - vm_compute. reflexivity.
  - vm_compute. discriminate.
  - rewrite Hhook. exact Htr.
Qed.

(** C7, on a frame for the pending id 7 whose last checksum byte was changed
    from 0x2C to 0x2D: the pending transaction is finished with
    ChecksumMismatch and the decoder waits for a start byte with nothing
    collected, but [last_received_byte] is still ESCAPE, so the start byte of
    the frame that follows is taken for an escaped byte. The well-formed
    response for id 9, which [tick_hook] made pending in between, is not
    parsed: no callback is invoked and the transaction stays pending. The
    same response is parsed and completes the transaction once
    [last_received_byte] is anything but ESCAPE. *)
Theorem checksum_mismatch_then_frame_lost :
  let corrupted := <[11%nat := 0x2D]> (response_frame 7 {| float_bits := 0x41260000 |}) in
  let following := response_frame 9 {| float_bits := 0x41200000 |} in
  let c1 := snd (receive_hook (H := quiet_environment) 0
                   (deliver 0 (wire_frame corrupted)) (busy_client 1000)) in
  let c2 := tick_hook (H := quiet_environment) 10 Sent c1 in
  let c3 := snd (receive_hook (H := quiet_environment) 20
                   (deliver 20 (wire_frame following)) c2) in
  let c3' := snd (receive_hook (H := quiet_environment) 20
                    (deliver 20 (wire_frame following)) (set_last_received_byte 0 c2)) in
  (frame_id corrupted = 7
   /\ ccitt_false (take 10 corrupted) = 0x412C
   /\ frame_checksum corrupted = 0x412D)
  /\ (trace c1 = [EvDelete (set_callback None transaction_a);
                  EvCallback (Some 0%nat) 4 Result.ChecksumMismatch NAN]
      /\ pending_transaction c1 = None
      /\ wait_for_start c1 = true
      /\ pending_response_used c1 = 0%nat
      /\ last_received_byte c1 = ESCAPE)
  /\ pending_transaction c2 = Some transaction_b
  /\ (frame_id following = 9
      /\ ccitt_false (take 10 following) = frame_checksum following)
  /\ (trace c3 = trace c2
      /\ pending_transaction c3 = Some transaction_b
      /\ wait_for_start c3 = true
      /\ pending_response_used c3 = 0%nat)
  /\ (trace c3' = trace c2 ++ [EvDelete (set_callback None transaction_b);
                               EvCallback (Some 1%nat) 5 Result.Success
                                 {| float_bits := 0x41200000 |}]
      /\ pending_transaction c3' = None).
Proof.
  vm_compute. split_and!; reflexivity.
Qed.

(** ** The bookkeeping of transactions along a run *)

Lemma completed_app (tr tr' : list Event) :
  completed (tr ++ tr') = completed tr ++ completed tr'.
Proof. apply omap_app. Qed.

Lemma deleted_app (tr tr' : list Event) :
  deleted (tr ++ tr') = deleted tr ++ deleted tr'.
Proof. apply omap_app. Qed.

Lemma unowned_silent (evs : list Event) :
  Forall unowned evs ->
  completed evs = [] /\ deleted evs = [] /\ deleted_then_invoked evs.
Proof.
  induction 1 as [|e evs He _ (IHc & IHd & IHp)]; [repeat constructor|].
  split_and!.
  - destruct e as [|[a|]| | |]; simpl in *; try contradiction; exact IHc.
  - destruct e as [|[a|]| | |]; simpl in *; try contradiction; exact IHd.
  - constructor; assumption.
Qed.

Lemma deleted_then_invoked_app (tr tr' : list Event) :
  deleted_then_invoked tr -> deleted_then_invoked tr' -> deleted_then_invoked (tr ++ tr').
Proof.
  intros Htr Htr'. induction Htr; simpl.
  - exact Htr'.
  - constructor; assumption.
  - constructor; assumption.
Qed.

Lemma finish_events_paired (result : Result.t) (value : float)
  (l : list TFRCTPowerClientTransaction) :
  Forall (fun t => is_Some (callback t)) l ->
  completed (flat_map (finish_events result value) l) = map addr l
  /\ deleted (flat_map (finish_events result value) l) = map addr l
  /\ deleted_then_invoked (flat_map (finish_events result value) l).
Proof.
  induction 1 as [|t l [k Hk] _ (IHc & IHd & IHp)]; [repeat constructor|].
  change (flat_map (finish_events result value) (t :: l))
    with (finish_events result value t ++ flat_map (finish_events result value) l).
  rewrite completed_app, deleted_app, IHc, IHd.
  unfold finish_events. rewrite Hk.
  split_and!; [reflexivity | reflexivity |].
  apply (dti_pair (set_callback None t)); [reflexivity | exact IHp].
Qed.

(** The bookkeeping depends on the trace, the transactions held and the
    allocation counter only, and effects that concern no transaction do not
    disturb it. *)
Lemma accounted_ext (c c' : TFRCTPowerClient) (evs : list Event) :
  accounted c ->
  trace c' = trace c ++ evs ->
  Forall unowned evs ->
  outstanding c' = outstanding c ->
  heap_next c' = heap_next c ->
  accounted c'.
Proof.
  intros (Hperm & Hdel & Hpair & Hcb) Htr Hevs Hout Hheap.
  destruct (unowned_silent evs Hevs) as (Hc & Hd & Hp).
  unfold accounted.
  rewrite Htr, Hout, Hheap, completed_app, deleted_app, Hc, Hd, !app_nil_r.
  split_and!; [exact Hperm | exact Hdel | | exact Hcb].
  apply deleted_then_invoked_app; assumption.
Qed.

(** Finishing transactions that are held: they move from the ones held to
    the ones whose callable was invoked. *)
Lemma accounted_finish (c c' : TFRCTPowerClient) (result : Result.t) (value : float)
  (l rest : list TFRCTPowerClientTransaction) :
  accounted c ->
  outstanding c = l ++ rest ->
  trace c' = trace c ++ flat_map (finish_events result value) l ->
  outstanding c' = rest ->
  heap_next c' = heap_next c ->
  accounted c'.
Proof.
  intros (Hperm & Hdel & Hpair & Hcb) Hsplit Htr Hout Hheap.
  rewrite Hsplit in Hperm, Hcb. apply Forall_app in Hcb as [Hl Hrest].
  destruct (finish_events_paired result value l Hl) as (Hc & Hd & Hp).
  unfold accounted.
  rewrite Htr, Hout, Hheap, completed_app, deleted_app, Hc, Hd, Hdel.
  split_and!; [| reflexivity | | exact Hrest].
  - rewrite <- app_assoc, <- map_app. exact Hperm.
  - apply deleted_then_invoked_app; assumption.
Qed.

Section PassiveCallables.
Context `{Environment}.
Hypothesis callables_passive : passive.

Lemma invoke_passive (owner : option nat) (callback_ : TFRCTPowerClientTransactionCallback)
  (result : Result.t) (value : float) (c : TFRCTPowerClient) :
  invoke owner callback_ result value c
  = log (match callback_ with
         | Some k => EvCallback owner k result value
         | None => EvBadFunctionCall
         end) c.
Proof. destruct callback_ as [k|]; simpl; [apply callables_passive | reflexivity]. Qed.

Lemma finish_pending_transaction_passive (result : Result.t) (value : float)
  (c : TFRCTPowerClient) (t : TFRCTPowerClientTransaction) :
  pending_transaction c = Some t ->
  finish_pending_transaction result value c
  = set_trace (trace c ++ finish_events result value t)
      (set_pending_transaction_deadline 0 (set_pending_transaction None c)).
Proof.
  intros Hp. rewrite (finish_pending_transaction_some _ _ _ t Hp), invoke_passive.
  unfold log, released, finish_events, set_trace. simpl.
  rewrite <- app_assoc. reflexivity.
Qed.

Lemma finish_scheduled_transactions_passive (result : Result.t)
  (l : list TFRCTPowerClientTransaction) (c : TFRCTPowerClient) :
  fold_left (finish_scheduled_transaction result) l c
  = set_trace (trace c ++ flat_map (finish_events result NAN) l) c.
Proof.
  revert c. induction l as [|t l IH]; intros c.
  - simpl. rewrite app_nil_r. destruct c; reflexivity.
  - change (fold_left (finish_scheduled_transaction result) (t :: l) c)
      with (fold_left (finish_scheduled_transaction result) l
              (finish_scheduled_transaction result c t)).
    rewrite IH. unfold finish_scheduled_transaction. rewrite invoke_passive.
    unfold log, set_trace. simpl. rewrite <- !app_assoc. reflexivity.
Qed.

(** With passive callables [finish_all_transactions] finishes the pending
    transaction and then the scheduled ones in link order, and leaves the
    client holding none. *)
Lemma finish_all_transactions_passive (result : Result.t) (c : TFRCTPowerClient) :
  finish_all_transactions result c
  = set_trace (trace c ++ flat_map (finish_events result NAN) (outstanding c))
      (set_scheduled_transaction_head []
         (set_pending_transaction_deadline
            (match pending_transaction c with
             | Some _ => 0
             | None => pending_transaction_deadline c
             end)
            (set_pending_transaction None c))).
Proof.
  unfold finish_all_transactions, outstanding.
  destruct (pending_transaction c) as [t|] eqn:Hp.
  - rewrite (finish_pending_transaction_passive _ _ _ t Hp).
    rewrite finish_scheduled_transactions_passive.
    unfold set_trace. simpl. rewrite <- app_assoc. reflexivity.
  - rewrite (finish_pending_transaction_none _ _ _ Hp).
    rewrite finish_scheduled_transactions_passive.
    destruct c; simpl in *; subst; reflexivity.
Qed.

Lemma accounted_finish_pending_transaction (result : Result.t) (value : float)
  (c : TFRCTPowerClient) :
  accounted c -> accounted (finish_pending_transaction result value c).
Proof.
  intros Hacc. destruct (pending_transaction c) as [t|] eqn:Hp.
  - rewrite (finish_pending_transaction_passive _ _ _ t Hp).
    apply (accounted_finish c _ result value [t] (scheduled_transaction_head c) Hacc).
    + unfold outstanding. rewrite Hp. reflexivity.
    + simpl. rewrite ?app_nil_r. reflexivity.
    + reflexivity.
    + reflexivity.
  - rewrite (finish_pending_transaction_none _ _ _ Hp). exact Hacc.
Qed.

Lemma accounted_log (e : Event) (c : TFRCTPowerClient) :
  unowned e -> accounted c -> accounted (log e c).
Proof.
  intros He Hacc. apply (accounted_ext c _ [e] Hacc); try reflexivity.
  constructor; [exact He | constructor].
Qed.

Lemma accounted_read (id_ : Z) (timeout_ : micros_t)
  (callback_ : TFRCTPowerClientTransactionCallback) (c : TFRCTPowerClient) :
  accounted c -> accounted (read id_ timeout_ callback_ c).
Proof.
  intros Hacc. unfold read.
  destruct callback_ as [k|]; [|exact Hacc].
  destruct (timeout_ <? 0).
  { rewrite invoke_passive. apply accounted_log; [exact I | exact Hacc]. }
  destruct (socket_fd c <? 0).
  { rewrite invoke_passive. apply accounted_log; [exact I | exact Hacc]. }
  destruct (_ <=? _)%nat.
  { rewrite invoke_passive. apply accounted_log; [exact I | exact Hacc]. }
  destruct Hacc as (Hperm & Hdel & Hpair & Hcb).
  set (transaction := {| addr := heap_next c; id := id_; timeout := timeout_;
                         callback := Some k |}).
  set (c' := set_scheduled_transaction_head _ _).
  assert (Htr : trace c' = trace c) by reflexivity.
  assert (Hout : outstanding c' = outstanding c ++ [transaction]).
  { unfold outstanding. rewrite <- app_assoc. reflexivity. }
  assert (Hheap : heap_next c' = S (heap_next c)) by reflexivity.
  unfold accounted. rewrite Htr, Hout, Hheap.
  split_and!; [| exact Hdel | exact Hpair |].
  - rewrite map_app, app_assoc, seq_S.
    apply Permutation_app_tail. exact Hperm.
  - apply Forall_app. split; [exact Hcb|].
    constructor; [eexists; reflexivity | constructor].
Qed.

Lemma accounted_tick_hook (now : micros_t) (sent : SendResult) (c : TFRCTPowerClient) :
  accounted c -> accounted (tick_hook now sent c).
Proof.
  intros Hacc. unfold tick_hook.
  assert (Hacc1 : accounted (check_pending_transaction_timeout now c)).
  { unfold check_pending_transaction_timeout.
    destruct (pending_transaction c); [|exact Hacc].
    destruct (deadline_elapsed _ _); [|exact Hacc].
    apply accounted_finish_pending_transaction. exact Hacc. }
  set (c1 := check_pending_transaction_timeout now c) in *.
  destruct (pending_transaction c1) as [p|] eqn:Hp; [exact Hacc1|].
  destruct (scheduled_transaction_head c1) as [|t next] eqn:Hq; [exact Hacc1|].
  set (c2 := log _ _).
  assert (Hacc2 : accounted c2).
  { apply (accounted_ext c1 _ [EvSend (escape_request (request_frame (id t))) sent] Hacc1).
    - reflexivity.
    - constructor; [exact I | constructor].
    - unfold outstanding. rewrite Hp, Hq. reflexivity.
    - reflexivity. }
  destruct sent as [|saved_errno]; [exact Hacc2|].
  apply accounted_log; [exact I|].
  apply accounted_finish_pending_transaction. exact Hacc2.
Qed.

Lemma receive_byte_keeps (now : micros_t) (received_byte : Z) (c : TFRCTPowerClient) :
  trace (receive_byte now received_byte c) = trace c
  /\ outstanding (receive_byte now received_byte c) = outstanding c
  /\ heap_next (receive_byte now received_byte c) = heap_next c.
Proof.
  unfold receive_byte, check_response_header, unescape_step.
  repeat match goal with
         | |- context [if ?b then _ else _] => destruct b
         end; repeat split.
Qed.

Lemma receive_loop_keeps (deadline : micros_t) (polls : list Poll) (c : TFRCTPowerClient) :
  exists evs,
    Forall unowned evs
    /\ trace (loop_client (receive_loop deadline polls c)) = trace c ++ evs
    /\ outstanding (loop_client (receive_loop deadline polls c)) = outstanding c
    /\ heap_next (loop_client (receive_loop deadline polls c)) = heap_next c.
Proof.
  assert (Hsame : forall c0 : TFRCTPowerClient,
             exists evs, Forall unowned evs /\ trace c0 = trace c0 ++ evs
                         /\ outstanding c0 = outstanding c0 /\ heap_next c0 = heap_next c0).
  { intros c0. exists []. rewrite app_nil_r. repeat split. constructor. }
  assert (Hdisconnect : forall reason error_number (c0 : TFRCTPowerClient),
             exists evs, Forall unowned evs
                         /\ trace (disconnect reason error_number c0) = trace c0 ++ evs
                         /\ outstanding (disconnect reason error_number c0) = outstanding c0
                         /\ heap_next (disconnect reason error_number c0) = heap_next c0).
  { intros reason error_number c0. exists [EvDisconnect reason error_number].
    repeat split. constructor; [exact I | constructor]. }
  revert c. induction polls as [|poll polls IH]; intros c; simpl.
  - destruct (_ =? _)%nat; apply Hsame.
  - destruct (_ =? _)%nat; [apply Hsame|].
    destruct (deadline_elapsed _ _); [apply Hsame|].
    destruct (received poll) as [error_number| |received_byte].
    + destruct (negb _ && negb _); [apply Hdisconnect | apply Hsame].
    + apply Hdisconnect.
    + destruct (IH (receive_byte (clock poll) received_byte c))
        as (evs & Hevs & Htr & Hout & Hheap).
      destruct (receive_byte_keeps (clock poll) received_byte c) as (Htr' & Hout' & Hheap').
      exists evs. rewrite Htr, Hout, Hheap, Htr', Hout', Hheap'. repeat split. exact Hevs.
Qed.

Lemma accounted_receive_hook (now : micros_t) (polls : list Poll) (c : TFRCTPowerClient) :
  accounted c -> accounted (snd (receive_hook now polls c)).
Proof.
  intros Hacc. unfold receive_hook.
  destruct (receive_loop_keeps (calculate_deadline now 10000) polls c)
    as (evs & Hevs & Htr & Hout & Hheap).
  assert (Hacc' : accounted (loop_client (receive_loop (calculate_deadline now 10000) polls c))).
  { apply (accounted_ext c _ evs Hacc); assumption. }
  destruct (receive_loop _ _ _) as [value c'|c']; simpl in *; [exact Hacc'|].
  assert (Hreset : accounted (reset_pending_response c')).
  { apply (accounted_ext c' _ [] Hacc'); try reflexivity; [|constructor].
    simpl. rewrite app_nil_r. reflexivity. }
  unfold dispatch_response.
  destruct (pending_transaction c') as [t|]; [|exact Hreset].
  destruct (negb (id t =? _)); [exact Hreset|].
  destruct (negb (_ =? _)); apply accounted_finish_pending_transaction; exact Hreset.
Qed.

Lemma accounted_close_hook (c : TFRCTPowerClient) :
  accounted c -> accounted (close_hook c).
Proof.
  intros Hacc. unfold close_hook. rewrite finish_all_transactions_passive.
  eapply (accounted_finish c _ Result.Aborted NAN (outstanding c) [] Hacc).
  - rewrite app_nil_r. reflexivity.
  - reflexivity.
  - reflexivity.
  - reflexivity.
Qed.

Lemma accounted_step (c : TFRCTPowerClient) (call : Call) :
  accounted c -> accounted (step c call).
Proof.
  intros Hacc. destruct call as [id_ timeout_ callback_|now sent|now polls| |fd]; simpl.
  - apply accounted_read. exact Hacc.
  - apply accounted_tick_hook. exact Hacc.
  - apply accounted_receive_hook. exact Hacc.
  - apply accounted_close_hook. exact Hacc.
  - apply (accounted_ext c _ [] Hacc); try reflexivity; [|constructor].
    simpl. rewrite app_nil_r. reflexivity.
Qed.

Lemma accounted_run (calls : list Call) (c : TFRCTPowerClient) :
  accounted c -> accounted (run calls c).
Proof.
  revert c. induction calls as [|call calls IH]; intros c Hacc; simpl.
  - exact Hacc.
  - apply IH, accounted_step, Hacc.
Qed.

End PassiveCallables.

Lemma accounted_idle_client (fd : Z) : accounted (idle_client fd).
Proof. repeat split; constructor. Qed.

(** A tick that comes after the deadline of the pending transaction, if
    there is one, brings a client that holds transactions closer to holding
    none. *)
Lemma tick_hook_progress `{Environment} (now : micros_t) (sent : SendResult)
  (c : TFRCTPowerClient) :
  passive ->
  (forall t, pending_transaction c = Some t -> pending_transaction_deadline c < now) ->
  outstanding c = [] \/ (weight (tick_hook now sent c) < weight c)%nat.
Proof.
  intros Hpassive Hlate.
  assert (Hpromote : forall c1 : TFRCTPowerClient,
             pending_transaction c1 = None ->
             scheduled_transaction_head c1 <> [] ->
             (weight (match pending_transaction c1, scheduled_transaction_head c1 with
                      | None, transaction :: next =>
                        let c := set_pending_transaction (Some transaction) c1 in
                        let c := set_scheduled_transaction_head next c in
                        let c := set_pending_transaction_deadline
                                   (calculate_deadline now (timeout transaction)) c in
                        let request := request_frame (id transaction) in
                        let escaped_request := escape_request request in
                        let c := log (EvSend escaped_request sent) c in
                        match sent with
                        | Sent => c
                        | SendError saved_errno =>
                          let c := finish_pending_transaction Result.SendFailed NAN c in
                          disconnect Reason.SocketSendFailed saved_errno c
                        end
                      | _, _ => c1
                      end)
              < 2 * length (scheduled_transaction_head c1))%nat).
  { intros c1 Hp Hq. rewrite Hp.
    destruct (scheduled_transaction_head c1) as [|t next]; [contradiction|].
    destruct sent as [|saved_errno]; cbv zeta.
    - unfold weight. simpl. lia.
    - rewrite (finish_pending_transaction_passive Hpassive _ _ _ t) by reflexivity.
      unfold weight. simpl. lia. }
  unfold tick_hook, check_pending_transaction_timeout, deadline_elapsed.
  destruct (pending_transaction c) as [p|] eqn:Hp.
  - right. specialize (Hlate p eq_refl).
    destruct (Z.ltb_spec (pending_transaction_deadline c) now); [|lia].
    rewrite (finish_pending_transaction_passive Hpassive _ _ _ p Hp).
    set (c1 := set_trace _ _).
    destruct (scheduled_transaction_head c) as [|t next] eqn:Hq.
    + change (scheduled_transaction_head c1) with (scheduled_transaction_head c).
      change (pending_transaction c1) with (@None TFRCTPowerClientTransaction).
      rewrite Hq. unfold weight. rewrite Hp. simpl. rewrite Hq. simpl. lia.
    + assert (Hlt := Hpromote c1 eq_refl).
      change (scheduled_transaction_head c1) with (scheduled_transaction_head c) in Hlt.
      rewrite Hq in Hlt. specialize (Hlt ltac:(discriminate)).
      unfold weight at 2. rewrite Hp, Hq.
      change (scheduled_transaction_head c1) with (scheduled_transaction_head c).
      rewrite Hq. simpl length in *. cbv zeta in *. lia.
  - destruct (scheduled_transaction_head c) as [|t next] eqn:Hq.
    + left. unfold outstanding. rewrite Hp, Hq. reflexivity.
    + right. assert (Hlt := Hpromote c Hp). rewrite Hq in Hlt.
      specialize (Hlt ltac:(discriminate)). rewrite Hp in Hlt.
      unfold weight at 2. rewrite Hp, Hq. simpl length in *. cbv zeta in *. lia.
Qed.

(** C3, as the code has it: along every run of the entry points from a
    client that holds no transaction, with callables that do not call back
    into the client, the transactions [read] has created are, each exactly
    once, either still held (pending or scheduled) or finished by an
    invocation of their callable, so that no callable of a transaction is
    invoked twice and no transaction is lost; every transaction is deleted
    exactly once, its stored callback empty, immediately before its callable
    is invoked; a tick after the pending deadline brings the client closer
    to holding no transaction; and [close_hook] finishes the pending
    transaction and then every scheduled one with Aborted and NAN, leaving
    the client with none, every transaction created so far finished once. *)
Theorem every_transaction_finished_once `{Environment} (fd : Z) (calls : list Call) :
  passive ->
  let c := run calls (idle_client fd) in
  (completed (trace c) ++ map addr (outstanding c) ≡ₚ seq 0 (heap_next c)
   /\ deleted (trace c) = completed (trace c)
   /\ deleted_then_invoked (trace c))
  /\ (forall now sent,
        (forall t, pending_transaction c = Some t -> pending_transaction_deadline c < now) ->
        outstanding c = [] \/ (weight (tick_hook now sent c) < weight c)%nat)
  /\ (Forall (fun t => is_Some (callback t)) (outstanding c)
      /\ trace (close_hook c)
         = trace c ++ flat_map (finish_events Result.Aborted NAN) (outstanding c)
      /\ outstanding (close_hook c) = []
      /\ heap_next (close_hook c) = heap_next c
      /\ completed (trace (close_hook c)) ≡ₚ seq 0 (heap_next c)).
Proof.
  intros Hpassive c.
  assert (Hacc : accounted c).
  { apply accounted_run; [exact Hpassive | apply accounted_idle_client]. }
  assert (Hclose : accounted (close_hook c)).
  { apply accounted_close_hook; assumption. }
  destruct Hacc as (Hperm & Hdel & Hpair & Hcb).
  assert (Hfinish := finish_all_transactions_passive Hpassive Result.Aborted
                       (reset_pending_response
                          (set_bootloader_last_detected 0
                             (set_bootloader_magic_number 0
                                (set_last_received_byte 0 c))))).
  fold (close_hook c) in Hfinish.
  assert (Hout : outstanding (close_hook c) = []) by (rewrite Hfinish; reflexivity).
  assert (Hheap : heap_next (close_hook c) = heap_next c) by (rewrite Hfinish; reflexivity).
  split_and!; try assumption.
  - intros now sent. apply tick_hook_progress. exact Hpassive.
  - rewrite Hfinish. reflexivity.
  - destruct Hclose as (Hperm' & _). rewrite Hout, app_nil_r, Hheap in Hperm'.
    exact Hperm'.
Qed.

(** A transaction is accepted, sent and timed out, a second one is accepted
    and sent, and the connection is torn down. *)
Lemma every_transaction_finished_once_witness :
  let calls := [CallRead 7 1000 (Some 4%nat); CallTick 0 Sent;
                CallRead 9 2000 (Some 5%nat); CallTick 1001 Sent] in
  let c := run (H := quiet_environment) calls (idle_client 3) in
  completed (trace c) ++ map addr (outstanding c) ≡ₚ seq 0 (heap_next c)
  /\ completed (trace (close_hook (H := quiet_environment) c)) ≡ₚ [0%nat; 1%nat].
Proof.
  intros calls c.
  assert (Hquiet : passive (H := quiet_environment)) by (intros k result value c0; reflexivity).
  destruct (every_transaction_finished_once (H := quiet_environment) 3 calls Hquiet)
    as ((Hperm & _) & _ & (_ & _ & _ & _ & Hall)).
  split; [exact Hperm | exact Hall].
Defined.

(** C3 as stated fails on the order: the run accepts a transaction, sends
    its request and lets it time out, and the trace shows the transaction
    deleted before its callable is invoked, not after. *)
Lemma transaction_deleted_before_callback :
  let calls := [CallRead 7 1000 (Some 4%nat); CallTick 0 Sent; CallTick 2000 Sent] in
  let c := run (H := quiet_environment) calls (idle_client 3) in
  trace c = [EvSend (wire_frame (request_frame 7)) Sent;
             EvDelete {| addr := 0; id := 7; timeout := 1000; callback := None |};
             EvCallback (Some 0%nat) 4 Result.Timeout NAN]
  /\ ~ invoked_then_deleted (trace c).
Proof.
  split; [vm_compute; reflexivity|].
  vm_compute. intros Hbad.
  inversion Hbad as [|e tr Hsend Htail|]; subst.
  inversion Htail as [|e tr Hdelete _|]; subst.
  exact Hdelete.
Qed.

(** With a callable that calls [tick_hook] when the pending transaction is
    aborted, [close_hook] leaves the scheduled transaction pending instead
    of finishing it: the assumption on the callables is needed. *)
Lemma close_hook_reentrant_tick :
  let c := close_hook (H := ticking_environment) (busy_client 1000) in
  pending_transaction c = Some transaction_b
  /\ completed (trace c) = [0%nat].
Proof. vm_compute. split; reflexivity. Qed.

(** * Further properties *)

(** ** get_tf_rct_power_client_transaction_result_name *)

(** X1: the ten results have ten different names, none of them the name
    "<Unknown>" that the function keeps for values outside the enumeration:
    a name in a log identifies the result. *)
Theorem result_names_distinct :
  (forall r1 r2 : Result.t,
     get_tf_rct_power_client_transaction_result_name r1
     = get_tf_rct_power_client_transaction_result_name r2 -> r1 = r2)
  /\ (forall r : Result.t,
        get_tf_rct_power_client_transaction_result_name r <> "<Unknown>"%string).
Proof.
  split.
  - intros r1 r2. destruct r1, r2; simpl; intros Heq; solve [reflexivity | discriminate Heq].
  - intros r. destruct r; simpl; discriminate.
Qed.

(** ** crc16ccitt: a message followed by its checksum *)

(** A round in which the input bit equals bit 15 of the accumulator only
    shifts. *)
Lemma ccitt_false_bit_shift (byte s k : Z) :
  0 <= k <= 7 ->
  Z.testbit byte (7 - k) = Z.testbit s (15 - k) ->
  ccitt_false_bit byte ((s * 2 ^ k) mod 2 ^ 16) k = (s * 2 ^ (k + 1)) mod 2 ^ 16.
Proof.
  intros Hk Hbit. unfold ccitt_false_bit.
  rewrite Z.mod_pow2_bits_low by lia.
  rewrite Z.mul_pow2_bits by lia.
  rewrite Hbit, xorb_nilpotent.
  rewrite Z.mul_mod_idemp_r by lia.
  f_equal. rewrite Z.pow_add_r by lia. lia.
Qed.

(** Feeding a byte whose bits are the upper eight bits of the accumulator
    shifts the accumulator by eight bits. *)
Lemma ccitt_false_byte_shift (byte s : Z) :
  0 <= s < 2 ^ 16 ->
  (forall k, 0 <= k <= 7 -> Z.testbit byte (7 - k) = Z.testbit s (15 - k)) ->
  ccitt_false_byte s byte = (s * 2 ^ 8) mod 2 ^ 16.
Proof.
  intros Hs Hbits. unfold ccitt_false_byte. cbn [fold_left].
  replace s with ((s * 2 ^ 0) mod 2 ^ 16) at 1
    by (rewrite Z.mul_1_r; apply Z.mod_small; exact Hs).
  rewrite (ccitt_false_bit_shift byte s 0) by (try apply Hbits; lia).
  change (0 + 1) with 1.
  rewrite (ccitt_false_bit_shift byte s 1) by (try apply Hbits; lia).
  change (1 + 1) with 2.
  rewrite (ccitt_false_bit_shift byte s 2) by (try apply Hbits; lia).
  change (2 + 1) with 3.
  rewrite (ccitt_false_bit_shift byte s 3) by (try apply Hbits; lia).
  change (3 + 1) with 4.
  rewrite (ccitt_false_bit_shift byte s 4) by (try apply Hbits; lia).
  change (4 + 1) with 5.
  rewrite (ccitt_false_bit_shift byte s 5) by (try apply Hbits; lia).
  change (5 + 1) with 6.
  rewrite (ccitt_false_bit_shift byte s 6) by (try apply Hbits; lia).
  change (6 + 1) with 7.
  rewrite (ccitt_false_bit_shift byte s 7) by (try apply Hbits; lia).
  change (7 + 1) with 8.
  reflexivity.
Qed.

Lemma ccitt_false_residue (s : Z) :
  0 <= s < 2 ^ 16 ->
  ccitt_false_byte (ccitt_false_byte s (s / 2 ^ 8)) (s mod 2 ^ 8) = 0.
Proof.
  intros Hs.
  rewrite (ccitt_false_byte_shift (s / 2 ^ 8) s Hs).
  2:{ intros k Hk. rewrite Z.div_pow2_bits by lia. f_equal. lia. }
  rewrite (ccitt_false_byte_shift (s mod 2 ^ 8) ((s * 2 ^ 8) mod 2 ^ 16)).
  - rewrite Z.mul_mod_idemp_l by lia.
    rewrite <- Z.mul_assoc. change (2 ^ 8 * 2 ^ 8) with (2 ^ 16).
    apply Z.mod_mul. lia.
  - apply Z.mod_pos_bound. lia.
  - intros k Hk.
    rewrite Z.mod_pow2_bits_low by lia.
    rewrite Z.mod_pow2_bits_low by lia.
    rewrite Z.mul_pow2_bits by lia. f_equal. lia.
Qed.

Lemma crc16ccitt_residue (message : list Z) :
  let checksum := crc16ccitt message (length message) in
  crc16ccitt (message ++ [checksum / 2 ^ 8; checksum mod 2 ^ 8]) (length message + 2) = 0.
Proof.
  intros checksum. subst checksum.
  rewrite !crc16ccitt_take, firstn_all.
  rewrite take_ge by (rewrite length_app; simpl; lia).
  unfold ccitt_false.
  destruct (crc16ccitt_fold message 0xFFFF) as [_ Hrange]; [lia|].
  rewrite fold_left_app. cbn [fold_left].
  rewrite (Z.mod_small (fold_left ccitt_false_byte message 65535)) by exact Hrange.
  rewrite ccitt_false_residue by exact Hrange.
  reflexivity.
Qed.

(** X2: the checksum of a message followed by the checksum of the message,
    high byte first, is zero; in particular the checksum over all eight
    bytes of a request that [tick_hook] builds is zero, whatever the id. *)
Theorem crc16ccitt_of_message_and_checksum :
  (forall message : list Z,
     let checksum := crc16ccitt message (length message) in
     crc16ccitt (message ++ [checksum / 2 ^ 8; checksum mod 2 ^ 8])
       (length message + 2) = 0)
  /\ (forall id_ : Z, crc16ccitt (request_frame id_) 8 = 0).
Proof.
  split; [exact crc16ccitt_residue|].
  intros id_. rewrite request_frame_bytes.
  exact (crc16ccitt_residue [1; 4; (id_ / 2 ^ 24) mod 2 ^ 8; (id_ / 2 ^ 16) mod 2 ^ 8;
                             (id_ / 2 ^ 8) mod 2 ^ 8; id_ mod 2 ^ 8]).
Qed.

(** ** The escaped request *)



(** ** The decoder of receive_hook, byte by byte *)

Lemma decoder_only_refl (c : TFRCTPowerClient) : decoder_only c c.
Proof. repeat split. Qed.

Lemma decoder_only_trans (c1 c2 c3 : TFRCTPowerClient) :
  decoder_only c1 c2 -> decoder_only c2 c3 -> decoder_only c1 c3.
Proof.
  intros (H1 & H2 & H3 & H4 & H5 & H6) (K1 & K2 & K3 & K4 & K5 & K6).
  repeat split; congruence.
Qed.

Lemma receive_byte_unfold (now : micros_t) (b : Z) (c : TFRCTPowerClient) :
  receive_byte now b c = check_response_header (unescape_step b (beacon_update now b c)).
Proof. reflexivity. Qed.

Lemma beacon_update_keeps (now : micros_t) (b : Z) (c : TFRCTPowerClient) :
  wait_for_start (beacon_update now b c) = wait_for_start c
  /\ last_received_byte (beacon_update now b c) = last_received_byte c
  /\ pending_response (beacon_update now b c) = pending_response c
  /\ pending_response_used (beacon_update now b c) = pending_response_used c
  /\ decoder_only c (beacon_update now b c).
Proof.
  unfold beacon_update. destruct (_ =? 0x50F705AB); repeat split.
Qed.

Lemma receive_byte_decoder_only (now : micros_t) (b : Z) (c : TFRCTPowerClient) :
  decoder_only c (receive_byte now b c).
Proof.
  unfold receive_byte, check_response_header, unescape_step.
  repeat match goal with
         | |- context [if ?b then _ else _] => destruct b
         end; repeat split.
Qed.

(** The header checks pass when what is collected begins as a response
    does. *)
Lemma check_response_header_fits (c : TFRCTPowerClient) :
  header_fits (collected c) ->
  (pending_response_used c <= length (pending_response c))%nat ->
  check_response_header c = c.
Proof.
  intros [H0 H1] Hlen. unfold check_response_header, collected in *.
  destruct (Nat.eqb_spec (pending_response_used c) 1) as [E1|_].
  - rewrite E1 in *. destruct (lookup_lt_is_Some_2 (pending_response c) 0) as [x Hx]; [lia|].
    rewrite (list_lookup_total_correct _ _ _ Hx).
    rewrite (H0 x) by (rewrite lookup_take_lt by lia; exact Hx). reflexivity.
  - destruct (Nat.eqb_spec (pending_response_used c) 2) as [E2|_]; [|reflexivity].
    rewrite E2 in *. destruct (lookup_lt_is_Some_2 (pending_response c) 1) as [x Hx]; [lia|].
    rewrite (list_lookup_total_correct _ _ _ Hx).
    rewrite (H1 x) by (rewrite lookup_take_lt by lia; exact Hx). reflexivity.
Qed.

Lemma header_fits_app (l l' : list Z) : header_fits (l ++ l') -> header_fits l.
Proof.
  intros [H0 H1]. split; intros b Hb; [apply H0 | apply H1];
    apply lookup_app_l_Some; exact Hb.
Qed.

Lemma receive_loop_byte (deadline now : micros_t) (b : Z) (polls : list Poll)
  (c : TFRCTPowerClient) :
  pending_response_used c <> 12%nat ->
  deadline_elapsed now deadline = false ->
  receive_loop deadline (deliver now [b] ++ polls) c
  = receive_loop deadline polls (receive_byte now b c).
Proof.
  intros Hused Hnow. simpl.
  destruct (Nat.eqb_spec (pending_response_used c) 12); [contradiction|].
  rewrite Hnow. reflexivity.
Qed.

Lemma deliver_app (now : micros_t) (l l' : list Z) :
  deliver now (l ++ l') = deliver now l ++ deliver now l'.
Proof. apply map_app. Qed.

(** A byte that the escape handling appends, received while collecting. *)
Lemma receive_byte_appends (now : micros_t) (b : Z) (c : TFRCTPowerClient) :
  wait_for_start c = false ->
  ((b =? START) || (b =? ESCAPE) = false
   \/ (last_received_byte c = ESCAPE /\ (b =? START) || (b =? ESCAPE) = true)) ->
  (pending_response_used c < length (pending_response c))%nat ->
  header_fits (collected c ++ [b]) ->
  let c' := receive_byte now b c in
  collected c' = collected c ++ [b]
  /\ wait_for_start c' = false
  /\ last_received_byte c' = b
  /\ length (pending_response c') = length (pending_response c)
  /\ pending_response_used c' = S (pending_response_used c)
  /\ decoder_only c c'.
Proof.
  intros Hwait Hkind Hroom Hfits c'.
  destruct (beacon_update_keeps now b c) as (Kw & Kl & Kb & Ku & Kd).
  assert (Hstep : unescape_step b (beacon_update now b c)
                  = set_last_received_byte b
                      (append_pending_response b (beacon_update now b c))).
  { destruct Hkind as [Hplain | [Hlast Hmarker]].
    - apply unescape_step_plain; [congruence | exact Hplain].
    - apply unescape_step_escaped; [congruence | congruence | exact Hmarker]. }
  assert (Hcollected : collected (set_last_received_byte b
                                    (append_pending_response b (beacon_update now b c)))
                       = collected c ++ [b]).
  { unfold collected. cbn. rewrite Ku, Kb. apply take_S_insert. exact Hroom. }
  subst c'. rewrite receive_byte_unfold, Hstep.
  rewrite check_response_header_fits.
  - split_and!; try exact Hcollected; cbn; try congruence.
    + rewrite length_insert. congruence.
    + destruct Kd as (D1 & D2 & D3 & D4 & D5 & D6). repeat split; assumption.
  - rewrite Hcollected. exact Hfits.
  - cbn. rewrite length_insert, Ku, Kb. lia.
Qed.

(** The ESCAPE byte of a pair, received while collecting after a byte that
    is not ESCAPE: nothing is appended. *)
Lemma receive_byte_escape (now : micros_t) (c : TFRCTPowerClient) :
  wait_for_start c = false ->
  (last_received_byte c =? ESCAPE) = false ->
  (pending_response_used c <= length (pending_response c))%nat ->
  header_fits (collected c) ->
  let c' := receive_byte now ESCAPE c in
  collected c' = collected c
  /\ wait_for_start c' = false
  /\ last_received_byte c' = ESCAPE
  /\ pending_response c' = pending_response c
  /\ pending_response_used c' = pending_response_used c
  /\ decoder_only c c'.
Proof.
  intros Hwait Hlast Hroom Hfits c'.
  destruct (beacon_update_keeps now ESCAPE c) as (Kw & Kl & Kb & Ku & Kd).
  subst c'. rewrite receive_byte_unfold.
  rewrite unescape_step_escape by congruence.
  assert (Hcollected : collected (set_last_received_byte ESCAPE (beacon_update now ESCAPE c))
                       = collected c).
  { unfold collected. cbn. rewrite Ku, Kb. reflexivity. }
  rewrite check_response_header_fits.
  - split_and!; try exact Hcollected; cbn; try congruence.
    destruct Kd as (D1 & D2 & D3 & D4 & D5 & D6). repeat split; assumption.
  - rewrite Hcollected. exact Hfits.
  - cbn. rewrite Ku, Kb. exact Hroom.
Qed.

(** One raw byte in its escaped form, received while collecting. *)
Lemma receive_loop_raw_byte (deadline now : micros_t) (b : Z) (polls : list Poll)
  (c : TFRCTPowerClient) :
  deadline_elapsed now deadline = false ->
  wait_for_start c = false ->
  length (pending_response c) = 12%nat ->
  (pending_response_used c < 12)%nat ->
  (last_received_byte c =? ESCAPE) && ((b =? START) || (b =? ESCAPE)) = false ->
  header_fits (collected c ++ [b]) ->
  exists c',
    receive_loop deadline (deliver now (escape_raw b) ++ polls) c
    = receive_loop deadline polls c'
    /\ collected c' = collected c ++ [b]
    /\ wait_for_start c' = false
    /\ last_received_byte c' = b
    /\ length (pending_response c') = 12%nat
    /\ pending_response_used c' = S (pending_response_used c)
    /\ decoder_only c c'.
Proof.
  intros Hnow Hwait Hlen Hroom Hhere Hfits.
  unfold escape_raw. destruct ((b =? START) || (b =? ESCAPE)) eqn:Hmarker.
  - rewrite andb_true_r in Hhere.
    destruct (receive_byte_escape now c Hwait Hhere) as (E1 & E2 & E3 & E4 & E5 & E6);
      [lia | exact (header_fits_app _ _ Hfits) |].
    destruct (receive_byte_appends now b (receive_byte now ESCAPE c))
      as (A1 & A2 & A3 & A4 & A5 & A6).
    + exact E2.
    + right. split; [exact E3 | exact Hmarker].
    + rewrite E4, E5. lia.
    + rewrite E1. exact Hfits.
    + exists (receive_byte now b (receive_byte now ESCAPE c)).
      split_and!.
      * change (deliver now [ESCAPE; b]) with (deliver now [ESCAPE] ++ deliver now [b]).
        rewrite <- app_assoc.
        rewrite receive_loop_byte by (lia || exact Hnow).
        rewrite receive_loop_byte by (rewrite ?E5; lia || exact Hnow).
        reflexivity.
      * rewrite A1, E1. reflexivity.
      * exact A2.
      * exact A3.
      * rewrite A4, E4. exact Hlen.
      * rewrite A5, E5. reflexivity.
      * exact (decoder_only_trans _ _ _ E6 A6).
  - destruct (receive_byte_appends now b c Hwait) as (A1 & A2 & A3 & A4 & A5 & A6).
    + left. exact Hmarker.
    + lia.
    + exact Hfits.
    + exists (receive_byte now b c).
      split_and!; try assumption.
      * rewrite receive_loop_byte by (lia || exact Hnow). reflexivity.
      * rewrite A4. exact Hlen.
Qed.

(** Raw bytes in their escaped form, received while collecting: they are
    collected as they are, as long as no ESCAPE byte, the last byte received
    before them included, is directly followed by a marker, what is
    collected begins as a response does, and the buffer has room. *)
Lemma receive_loop_collecting (deadline now : micros_t) (raw : list Z)
  (polls : list Poll) (c : TFRCTPowerClient) :
  deadline_elapsed now deadline = false ->
  wait_for_start c = false ->
  length (pending_response c) = 12%nat ->
  (pending_response_used c + length raw <= 12)%nat ->
  escape_clash (last_received_byte c :: raw) = false ->
  header_fits (collected c ++ raw) ->
  exists c',
    receive_loop deadline (deliver now (flat_map escape_raw raw) ++ polls) c
    = receive_loop deadline polls c'
    /\ collected c' = collected c ++ raw
    /\ wait_for_start c' = false
    /\ last_received_byte c' = default (last_received_byte c) (last raw)
    /\ length (pending_response c') = 12%nat
    /\ pending_response_used c' = (pending_response_used c + length raw)%nat
    /\ decoder_only c c'.
Proof.
  intros Hnow. revert c.
  induction raw as [|b raw IH]; intros c Hwait Hlen Hroom Hclash Hfits.
  - exists c. simpl. rewrite app_nil_r, Nat.add_0_r.
    split_and!; try reflexivity; try assumption. apply decoder_only_refl.
  - cbn [length] in Hroom.
    assert (Hhere : (last_received_byte c =? ESCAPE) && ((b =? START) || (b =? ESCAPE)) = false
                    /\ escape_clash (b :: raw) = false).
    { cbn [escape_clash] in Hclash. destruct raw as [|b' raw'].
      - apply orb_false_elim in Hclash as [Hhere _]. split; [exact Hhere | reflexivity].
      - apply orb_false_elim in Hclash as [Hhere Htail]. split; [exact Hhere | exact Htail]. }
    destruct Hhere as [Hhere Htail].
    assert (Hfits1 : header_fits (collected c ++ [b])).
    { apply (header_fits_app _ raw). rewrite <- app_assoc. exact Hfits. }
    destruct (receive_loop_raw_byte deadline now b
                (deliver now (flat_map escape_raw raw) ++ polls) c)
      as (c1 & Hloop1 & Hc1 & Hw1 & Hl1 & Hlen1 & Hu1 & Hd1);
      [exact Hnow | exact Hwait | exact Hlen | lia | exact Hhere | exact Hfits1 |].
    destruct (IH c1) as (c' & Hloop & Hc & Hw & Hl & Hlen' & Hu & Hd).
    + exact Hw1.
    + exact Hlen1.
    + rewrite Hu1. lia.
    + rewrite Hl1. exact Htail.
    + rewrite Hc1, <- app_assoc. exact Hfits.
    + exists c'. split_and!.
      * change (flat_map escape_raw (b :: raw))
          with (escape_raw b ++ flat_map escape_raw raw).
        rewrite deliver_app, <- app_assoc, Hloop1, Hloop. reflexivity.
      * rewrite Hc, Hc1, <- app_assoc. reflexivity.
      * exact Hw.
      * rewrite Hl, Hl1, last_cons. destruct (last raw); reflexivity.
      * exact Hlen'.
      * rewrite Hu, Hu1. cbn [length]. lia.
      * exact (decoder_only_trans _ _ _ Hd1 Hd).
Qed.

(** While the decoder waits for a start byte with nothing collected, a byte
    that is not START, or that follows an ESCAPE byte, is skipped. *)
Lemma receive_byte_skipped (now : micros_t) (b : Z) (c : TFRCTPowerClient) :
  wait_for_start c = true ->
  pending_response_used c = 0%nat ->
  (b =? START) && negb (last_received_byte c =? ESCAPE) = false ->
  let c' := receive_byte now b c in
  wait_for_start c' = true
  /\ last_received_byte c' = b
  /\ pending_response c' = pending_response c
  /\ pending_response_used c' = 0%nat
  /\ decoder_only c c'.
Proof.
  intros Hwait Hused Hskip c'.
  destruct (beacon_update_keeps now b c) as (Kw & Kl & Kb & Ku & Kd).
  subst c'. rewrite receive_byte_unfold. unfold unescape_step, check_response_header.
  rewrite Kw, Hwait, Kl, Hskip. cbn. rewrite Ku, Hused. cbn.
  split_and!; try reflexivity; try congruence.
  destruct Kd as (D1 & D2 & D3 & D4 & D5 & D6). repeat split; assumption.
Qed.

(** The start byte, received while the decoder waits for it after a byte
    that is not ESCAPE: collecting begins. *)
Lemma receive_byte_start (now : micros_t) (c : TFRCTPowerClient) :
  wait_for_start c = true ->
  pending_response_used c = 0%nat ->
  (last_received_byte c =? ESCAPE) = false ->
  let c' := receive_byte now START c in
  wait_for_start c' = false
  /\ last_received_byte c' = START
  /\ pending_response c' = pending_response c
  /\ pending_response_used c' = 0%nat
  /\ decoder_only c c'.
Proof.
  intros Hwait Hused Hlast c'.
  destruct (beacon_update_keeps now START c) as (Kw & Kl & Kb & Ku & Kd).
  subst c'. rewrite receive_byte_unfold. unfold unescape_step, check_response_header.
  rewrite Kw, Hwait, Kl, Hlast. cbn. rewrite Ku, Hused. cbn.
  split_and!; try reflexivity; try congruence.
  destruct Kd as (D1 & D2 & D3 & D4 & D5 & D6). repeat split; assumption.
Qed.

(** Bytes none of which is taken for a start byte, received while the
    decoder waits for one with nothing collected. *)
Lemma receive_loop_skipping (deadline now : micros_t) (bytes : list Z)
  (polls : list Poll) (c : TFRCTPowerClient) :
  deadline_elapsed now deadline = false ->
  wait_for_start c = true ->
  pending_response_used c = 0%nat ->
  starts_frame (last_received_byte c) bytes = false ->
  exists c',
    receive_loop deadline (deliver now bytes ++ polls) c = receive_loop deadline polls c'
    /\ wait_for_start c' = true
    /\ pending_response_used c' = 0%nat
    /\ last_received_byte c' = default (last_received_byte c) (last bytes)
    /\ pending_response c' = pending_response c
    /\ decoder_only c c'.
Proof.
  intros Hnow. revert c.
  induction bytes as [|b bytes IH]; intros c Hwait Hused Hstart.
  - exists c. split_and!; try reflexivity; try assumption. apply decoder_only_refl.
  - cbn [starts_frame] in Hstart. apply orb_false_elim in Hstart as [Hhere Htail].
    destruct (receive_byte_skipped now b c Hwait Hused Hhere) as (S1 & S2 & S3 & S4 & S5).
    destruct (IH (receive_byte now b c)) as (c' & Hloop & Hw & Hu & Hl & Hb & Hd);
      [exact S1 | exact S4 | rewrite S2; exact Htail |].
    exists c'. split_and!.
    + change (deliver now (b :: bytes)) with (deliver now [b] ++ deliver now bytes).
      rewrite <- app_assoc, receive_loop_byte by (lia || exact Hnow). exact Hloop.
    + exact Hw.
    + exact Hu.
    + rewrite Hl, S2, last_cons. destruct (last bytes); reflexivity.
    + rewrite Hb, S3. reflexivity.
    + exact (decoder_only_trans _ _ _ S5 Hd).
Qed.

(** In the escaped form of raw bytes every START byte follows an ESCAPE
    byte. *)
Lemma starts_frame_escaped (previous : Z) (raw : list Z) :
  starts_frame previous (flat_map escape_raw raw) = false.
Proof.
  revert previous. induction raw as [|b raw IH]; intros previous; [reflexivity|].
  change (flat_map escape_raw (b :: raw)) with (escape_raw b ++ flat_map escape_raw raw).
  unfold escape_raw at 1. destruct ((b =? START) || (b =? ESCAPE)) eqn:Hmarker.
  - cbn [app starts_frame]. rewrite IH.
    change (ESCAPE =? START) with false. change (ESCAPE =? ESCAPE) with true.
    cbn. rewrite andb_false_r. reflexivity.
  - apply orb_false_elim in Hmarker as [Hb _].
    cbn [app starts_frame]. rewrite IH, Hb. reflexivity.
Qed.

(** The start byte received after a byte that is not ESCAPE, by a decoder
    that is not full: whatever it waited for or had collected, it collects
    from nothing. *)
Lemma receive_byte_begins (now : micros_t) (c : TFRCTPowerClient) :
  (wait_for_start c = true -> pending_response_used c = 0%nat) ->
  (last_received_byte c =? ESCAPE) = false ->
  let c' := receive_byte now START c in
  wait_for_start c' = false
  /\ last_received_byte c' = START
  /\ pending_response c' = pending_response c
  /\ pending_response_used c' = 0%nat
  /\ decoder_only c c'.
Proof.
  intros Hempty Hlast c'.
  destruct (wait_for_start c) eqn:Hwait.
  - apply receive_byte_start; [exact Hwait | apply Hempty; reflexivity | exact Hlast].
  - destruct (beacon_update_keeps now START c) as (Kw & Kl & Kb & Ku & Kd).
    subst c'. rewrite receive_byte_unfold. unfold unescape_step, check_response_header.
    rewrite Kw, Hwait, Kl, Hlast. cbn.
    split_and!; try reflexivity; try congruence.
    destruct Kd as (D1 & D2 & D3 & D4 & D5 & D6). repeat split; assumption.
Qed.

(** A whole twelve-byte frame in its escaped form behind the start byte:
    the loop ends with the frame in the buffer. *)
Lemma receive_loop_frame (deadline now : micros_t) (frame : list Z)
  (polls : list Poll) (c : TFRCTPowerClient) :
  deadline_elapsed now deadline = false ->
  length (pending_response c) = 12%nat ->
  pending_response_used c <> 12%nat ->
  (wait_for_start c = true -> pending_response_used c = 0%nat) ->
  last_received_byte c <> ESCAPE ->
  length frame = 12%nat ->
  frame !! 0%nat = Some 5 ->
  frame !! 1%nat = Some 8 ->
  escape_clash frame = false ->
  exists c',
    receive_loop deadline (deliver now (wire_frame frame) ++ polls) c = BufferFull c'
    /\ pending_response c' = frame
    /\ pending_response_used c' = 12%nat
    /\ last_received_byte c' = default START (last frame)
    /\ decoder_only c c'.
Proof.
  intros Hnow Hlen Hused Hempty Hlast Hframe H0 H1 Hclash.
  assert (Hlast' : (last_received_byte c =? ESCAPE) = false)
    by (destruct (Z.eqb_spec (last_received_byte c) ESCAPE); [contradiction | reflexivity]).
  destruct (receive_byte_begins now c Hempty Hlast') as (B1 & B2 & B3 & B4 & B5).
  set (c1 := receive_byte now START c) in *.
  destruct (receive_loop_collecting deadline now frame polls c1)
    as (c' & Hloop & Hc & Hw & Hl & Hlen' & Hu & Hd).
  - exact Hnow.
  - exact B1.
  - rewrite B3. exact Hlen.
  - rewrite B4, Hframe. lia.
  - rewrite B2. cbn [escape_clash]. destruct frame as [|b frame']; [reflexivity|].
    change (START =? ESCAPE) with false. exact Hclash.
  - unfold collected. rewrite B4. change (take 0 (pending_response c1)) with (@nil Z).
    cbn [app]. split; intros b Hb; congruence.
  - exists c'.
    assert (Hfull : pending_response_used c' = 12%nat) by (rewrite Hu, B4, Hframe; reflexivity).
    split_and!.
    + unfold wire_frame.
      change (deliver now (START :: flat_map escape_raw frame))
        with (deliver now [START] ++ deliver now (flat_map escape_raw frame)).
      rewrite <- app_assoc, receive_loop_byte by assumption.
      fold c1. rewrite Hloop.
      destruct polls; simpl; rewrite Hfull; reflexivity.
    + unfold collected in Hc. rewrite Hfull, B4 in Hc.
      change (take 0 (pending_response c1)) with (@nil Z) in Hc. cbn [app] in Hc.
      rewrite take_ge in Hc by lia. exact Hc.
    + exact Hfull.
    + rewrite Hl, B2. reflexivity.
    + exact (decoder_only_trans _ _ _ B5 Hd).
Qed.

Lemma dispatch_response_validated `{Environment} (c c' : TFRCTPowerClient) :
  pending_response_used c' = 12%nat ->
  Forall is_byte (pending_response c') ->
  pending_transaction c' = pending_transaction c ->
  dispatch_response c' = validated (pending_response c') c c'.
Proof.
  intros Hused Hbytes Hp. unfold validated. rewrite <- Hp.
  destruct (pending_transaction c') as [t|] eqn:Hp'.
  - destruct (Z.eqb_spec (id t) (frame_id (pending_response c'))) as [Hid|Hid].
    + apply dispatch_response_matching; assumption.
    + unfold dispatch_response. rewrite Hp'.
      rewrite response_id_big_endian by (apply is_byte_lookup; exact Hbytes).
      fold (frame_id (pending_response c')).
      destruct (Z.eqb_spec (id t) (frame_id (pending_response c'))); [contradiction|].
      reflexivity.
  - unfold dispatch_response. rewrite Hp'. reflexivity.
Qed.

(** X4: a well-formed response on the wire is decoded and dispatched. Let
    the decoder not be full, hold nothing while it waits for a start byte,
    and have last received a byte other than ESCAPE; let [frame] be twelve
    bytes that begin with the command 5 and the length 8 and in which no
    ESCAPE byte is directly followed by a marker. When [recv] delivers the
    start byte and the escaped frame within the time slice, [receive_hook]
    returns true with the frame in [pending_response] and has validated it:
    without a pending transaction or with another id the decoder is reset
    and nothing else happens, with the pending id the pending transaction is
    finished, with Success and the float of bytes 6 to 9 if bytes 10 and 11
    are the checksum of bytes 0 to 9, with ChecksumMismatch and NAN if not. *)
Theorem receive_hook_dispatches_frame `{Environment} (now0 now : micros_t)
  (frame : list Z) (polls : list Poll) (c : TFRCTPowerClient) :
  now <= now0 + 10000 ->
  length (pending_response c) = 12%nat ->
  pending_response_used c <> 12%nat ->
  (wait_for_start c = true -> pending_response_used c = 0%nat) ->
  last_received_byte c <> ESCAPE ->
  length frame = 12%nat ->
  frame !! 0%nat = Some 5 ->
  frame !! 1%nat = Some 8 ->
  Forall is_byte frame ->
  escape_clash frame = false ->
  exists c',
    receive_hook now0 (deliver now (wire_frame frame) ++ polls) c
    = (true, validated frame c c')
    /\ pending_response c' = frame
    /\ last_received_byte c' = default START (last frame)
    /\ decoder_only c c'.
Proof.
  intros Hnow Hlen Hused Hempty Hlast Hframe H0 H1 Hbytes Hclash.
  destruct (receive_loop_frame (calculate_deadline now0 10000) now frame polls c)
    as (c' & Hloop & Hbuf & Hfull & Hl & Hd); try assumption.
  { unfold deadline_elapsed, calculate_deadline. apply Z.ltb_ge. exact Hnow. }
  exists c'. split_and!; try assumption.
  unfold receive_hook. rewrite Hloop. f_equal.
  rewrite <- Hbuf at 1. apply dispatch_response_validated.
  - exact Hfull.
  - rewrite Hbuf. exact Hbytes.
  - destruct Hd as (_ & _ & Hp & _). exact Hp.
Qed.

(** The response for id 7 with the bits of 10.375 reaches the client whose
    pending transaction asks for id 7, behind a frame that broke off after
    four bytes. *)
Lemma receive_hook_dispatches_frame_witness :
  let broken := deliver 0 [START; 5; 8; 0; 0] in
  let c := loop_client (receive_loop 10000 broken (busy_client 1000)) in
  let frame := response_frame 7 {| float_bits := 0x41260000 |} in
  pending_response_used c = 4%nat
  /\ trace (snd (receive_hook (H := quiet_environment) 0
                   (deliver 5 (wire_frame frame)) c))
     = [EvDelete (set_callback None transaction_a);
        EvCallback (Some 0%nat) 4 Result.Success {| float_bits := 0x41260000 |}].
Proof.
  intros broken c frame. split; [reflexivity|].
  destruct (receive_hook_dispatches_frame (H := quiet_environment) 0 5 frame [] c)
    as (c' & Hhook & _ & _ & (_ & _ & _ & _ & _ & Htr)).
  - lia.
  - reflexivity.
  - vm_compute. discriminate.
  - vm_compute. discriminate.
  - vm_compute. discriminate.
  - reflexivity.
  - reflexivity.
  - reflexivity.
  - bytes_done.
  - reflexivity.
  - rewrite app_nil_r in Hhook. rewrite Hhook.
    assert (Hp : pending_transaction c = Some transaction_a) by reflexivity.
    assert (Hid : (id transaction_a =? frame_id frame) = true) by reflexivity.
    assert (Hcrc : (ccitt_false (take 10 frame) =? frame_checksum frame) = true)
      by (vm_compute; reflexivity).
    assert (Hval : frame_value frame = {| float_bits := 0x41260000 |})
      by (vm_compute; reflexivity).
    assert (Hempty : trace c = []) by reflexivity.
    unfold validated. rewrite Hp, Hid, Hcrc, Hval.
    unfold invoke, transaction_a, callback, callback_body, quiet_environment, log, released.
    cbn [trace set_trace set_pending_transaction_deadline set_pending_transaction
         reset_pending_response set_pending_response_used set_wait_for_start log snd].
    rewrite Htr, Hempty. reflexivity.
Defined.







(** X6: noise is skipped. When the decoder waits for a start byte with
    nothing collected and a call of [receive_hook] receives, within the time
    slice, only bytes none of which is a START byte that does not follow an
    ESCAPE byte, the call returns false with the decoder still waiting and
    empty, [last_received_byte] the last of these bytes, the buffer, the
    transactions and the trace as they were. The escaped payload of any
    frame is such noise. *)
Theorem receive_hook_skips_noise `{Environment} (now0 now : micros_t)
  (noise : list Z) (c : TFRCTPowerClient) :
  now <= now0 + 10000 ->
  wait_for_start c = true ->
  pending_response_used c = 0%nat ->
  starts_frame (last_received_byte c) noise = false ->
  (exists c',
     receive_hook now0 (deliver now noise) c = (false, c')
     /\ wait_for_start c' = true
     /\ pending_response_used c' = 0%nat
     /\ last_received_byte c' = default (last_received_byte c) (last noise)
     /\ pending_response c' = pending_response c
     /\ decoder_only c c')
  /\ (forall (previous : Z) (raw : list Z),
        starts_frame previous (flat_map escape_raw raw) = false).
Proof.
  intros Hnow Hwait Hused Hnoise. split; [|exact starts_frame_escaped].
  destruct (receive_loop_skipping (calculate_deadline now0 10000) now noise [] c)
    as (c' & Hloop & Hw & Hu & Hl & Hb & Hd); try assumption.
  { unfold deadline_elapsed, calculate_deadline. apply Z.ltb_ge. exact Hnow. }
  exists c'. split_and!; try assumption.
  unfold receive_hook. rewrite app_nil_r in Hloop. rewrite Hloop.
  simpl. rewrite Hu. reflexivity.
Qed.

Lemma receive_hook_skips_noise_witness :
  let c' := snd (receive_hook (H := quiet_environment) 0
                   (deliver 0 [0; ESCAPE; START; 7]) (busy_client 1000)) in
  wait_for_start c' = true /\ last_received_byte c' = 7.
Proof.
  intros c'.
  destruct (receive_hook_skips_noise (H := quiet_environment) 0 0 [0; ESCAPE; START; 7]
              (busy_client 1000))
    as ((c1 & Hhook & Hw & _ & Hl & _) & _).
  - lia.
  - reflexivity.
  - reflexivity.
  - reflexivity.
  - subst c'. rewrite Hhook. split; [exact Hw | exact Hl].
Defined.

(** ** The beacon register *)

Lemma receive_byte_beacon (now : micros_t) (b : Z) (c : TFRCTPowerClient) :
  let magic := u32 (Z.lor (Z.shiftl (bootloader_magic_number c) 8) b) in
  bootloader_magic_number (receive_byte now b c) = magic
  /\ bootloader_last_detected (receive_byte now b c)
     = if magic =? 0x50F705AB then now else bootloader_last_detected c.
Proof.
  unfold receive_byte, check_response_header, unescape_step.
  repeat match goal with
         | |- context [if ?b then _ else _] => destruct b eqn:?
         end; cbn; split; try reflexivity;
    repeat match goal with
           | H : ?x = true |- context [?x] => rewrite H
           | H : ?x = false |- context [?x] => rewrite H
           end; reflexivity.
Qed.

Lemma beacon_shift (m b : Z) :
  is_byte b -> u32 (Z.lor (Z.shiftl m 8) b) = (m * 2 ^ 8 + b) mod 2 ^ 32.
Proof.
  unfold is_byte, u32. intros Hb.
  rewrite Z.shiftl_mul_pow2 by lia.
  rewrite (lor_disjoint _ b 8); [reflexivity | lia | apply Z.mod_mul; lia |].
  change (2 ^ 8) with 256. lia.
Qed.

(** X7: the beacon register holds the last four bytes received, most
    significant first, whatever the decoder does with them; and
    [bootloader_last_detected] is the clock reading of the fourth byte when
    these are 50 F7 05 AB, and is not written by that byte otherwise. *)
Theorem beacon_register_holds_last_four_bytes (n1 n2 n3 n4 : micros_t)
  (b1 b2 b3 b4 : Z) (c : TFRCTPowerClient) :
  is_byte b1 -> is_byte b2 -> is_byte b3 -> is_byte b4 ->
  let c3 := receive_byte n3 b3 (receive_byte n2 b2 (receive_byte n1 b1 c)) in
  let c4 := receive_byte n4 b4 c3 in
  bootloader_magic_number c4 = b1 * 2 ^ 24 + b2 * 2 ^ 16 + b3 * 2 ^ 8 + b4
  /\ (bootloader_magic_number c4 = 0x50F705AB -> bootloader_last_detected c4 = n4)
  /\ (bootloader_magic_number c4 <> 0x50F705AB ->
      bootloader_last_detected c4 = bootloader_last_detected c3).
Proof.
  intros H1 H2 H3 H4 c3 c4.
  destruct (receive_byte_beacon n4 b4 c3) as [Hm4 Hd4]. fold c4 in Hm4, Hd4.
  assert (Hmagic : bootloader_magic_number c4 = b1 * 2 ^ 24 + b2 * 2 ^ 16 + b3 * 2 ^ 8 + b4).
  { rewrite Hm4. subst c3.
    destruct (receive_byte_beacon n3 b3 (receive_byte n2 b2 (receive_byte n1 b1 c))) as [-> _].
    destruct (receive_byte_beacon n2 b2 (receive_byte n1 b1 c)) as [-> _].
    destruct (receive_byte_beacon n1 b1 c) as [-> _].
    rewrite !beacon_shift by assumption.
    set (m := bootloader_magic_number c).
    pose proof (Z.mod_eq (m * 2 ^ 8 + b1) (2 ^ 32) ltac:(lia)) as E1.
    set (r1 := (m * 2 ^ 8 + b1) mod 2 ^ 32) in *.
    pose proof (Z.mod_eq (r1 * 2 ^ 8 + b2) (2 ^ 32) ltac:(lia)) as E2.
    set (r2 := (r1 * 2 ^ 8 + b2) mod 2 ^ 32) in *.
    pose proof (Z.mod_eq (r2 * 2 ^ 8 + b3) (2 ^ 32) ltac:(lia)) as E3.
    set (r3 := (r2 * 2 ^ 8 + b3) mod 2 ^ 32) in *.
    replace (r3 * 2 ^ 8 + b4)
      with (b1 * 2 ^ 24 + b2 * 2 ^ 16 + b3 * 2 ^ 8 + b4
            + (m - (m * 2 ^ 8 + b1) / 2 ^ 32 * 2 ^ 24 - (r1 * 2 ^ 8 + b2) / 2 ^ 32 * 2 ^ 16
               - (r2 * 2 ^ 8 + b3) / 2 ^ 32 * 2 ^ 8) * 2 ^ 32)
      by (rewrite E3, E2, E1; ring).
    rewrite Z.mod_add by lia.
    apply Z.mod_small. unfold is_byte in *. lia. }
  split_and!.
  - exact Hmagic.
  - intros Hhit. rewrite Hd4. rewrite <- Hm4, Hhit. reflexivity.
  - intros Hmiss. rewrite Hd4. rewrite <- Hm4.
    destruct (Z.eqb_spec (bootloader_magic_number c4) 0x50F705AB); [contradiction|].
    reflexivity.
Qed.

Lemma beacon_register_holds_last_four_bytes_witness :
  let c := receive_byte 4 0xAB (receive_byte 3 0x05 (receive_byte 2 0xF7
             (receive_byte 1 0x50 (busy_client 1000)))) in
  bootloader_magic_number c = 0x50F705AB /\ bootloader_last_detected c = 4.
Proof.
  intros c.
  destruct (beacon_register_holds_last_four_bytes 1 2 3 4 0x50 0xF7 0x05 0xAB
              (busy_client 1000)) as (Hmagic & Hhit & _);
    try (unfold is_byte; lia).
  split; [exact Hmagic | apply Hhit; exact Hmagic].
Defined.

(** ** receive_hook: the calls that end before a frame is complete *)

Lemma receive_loop_returned (deadline : micros_t) (polls : list Poll)
  (c c' : TFRCTPowerClient) (value : bool) :
  receive_loop deadline polls c = Returned value c' ->
  pending_response_used c' <> 12%nat
  /\ socket_fd c' = socket_fd c
  /\ scheduled_transaction_head c' = scheduled_transaction_head c
  /\ pending_transaction c' = pending_transaction c
  /\ pending_transaction_deadline c' = pending_transaction_deadline c
  /\ heap_next c' = heap_next c
  /\ (trace c' = trace c
      \/ (value = false
          /\ exists reason error_number,
               trace c' = trace c ++ [EvDisconnect reason error_number])).
Proof.
  revert c. induction polls as [|poll polls IH]; intros c; simpl.
  - destruct (Nat.eqb_spec (pending_response_used c) 12); [discriminate|].
    intros [= <- <-]. split_and!; try reflexivity; [assumption | left; reflexivity].
  - destruct (Nat.eqb_spec (pending_response_used c) 12); [discriminate|].
    destruct (deadline_elapsed _ _).
    { intros [= <- <-]. split_and!; try reflexivity; [assumption | left; reflexivity]. }
    destruct (received poll) as [error_number| |received_byte].
    + destruct (negb _ && negb _); intros [= <- <-];
        split_and!; try reflexivity; try assumption.
      * right. split; [reflexivity|]. eexists _, _. reflexivity.
      * left. reflexivity.
    + intros [= <- <-]. split_and!; try reflexivity; try assumption.
      right. split; [reflexivity|]. eexists _, _. reflexivity.
    + intros Hloop. destruct (IH _ Hloop) as (Hu & H1 & H2 & H3 & H4 & H5 & H6).
      destruct (receive_byte_decoder_only (clock poll) received_byte c)
        as (D1 & D2 & D3 & D4 & D5 & D6).
      rewrite D1 in H1. rewrite D2 in H2. rewrite D3 in H3. rewrite D4 in H4.
      rewrite D5 in H5. rewrite D6 in H6.
      split_and!; assumption.
Qed.

(** X8: a call of [receive_hook] whose loop ends before the buffer is full,
    because the time slice is over, [recv] has no data or fails, or the peer
    has closed, returns what the loop returns, leaves the buffer short of
    full, touches no transaction and invokes no callback. Its only possible
    effect is one call of [disconnect], and then it returns false: a receive
    failure is not reported to the pending transaction by this function. *)
Theorem receive_hook_early_return `{Environment} (now : micros_t)
  (polls : list Poll) (c c' : TFRCTPowerClient) (value : bool) :
  receive_loop (calculate_deadline now 10000) polls c = Returned value c' ->
  receive_hook now polls c = (value, c')
  /\ pending_response_used c' <> 12%nat
  /\ scheduled_transaction_head c' = scheduled_transaction_head c
  /\ pending_transaction c' = pending_transaction c
  /\ pending_transaction_deadline c' = pending_transaction_deadline c
  /\ (trace c' = trace c
      \/ (value = false
          /\ exists reason error_number,
               trace c' = trace c ++ [EvDisconnect reason error_number])).
Proof.
  intros Hloop.
  destruct (receive_loop_returned _ _ _ _ _ Hloop) as (Hu & _ & H2 & H3 & H4 & _ & H6).
  split_and!; try assumption.
  unfold receive_hook. rewrite Hloop. reflexivity.
Qed.

(** Half a frame arrives and the peer closes the connection. *)
Lemma receive_hook_early_return_witness :
  let polls := deliver 0 [START; 5; 8; 0] ++ [{| clock := 1; received := RecvClosed |}] in
  let result := receive_hook (H := quiet_environment) 0 polls (busy_client 1000) in
  fst result = false
  /\ pending_transaction (snd result) = Some transaction_a
  /\ trace (snd result) = [EvDisconnect Reason.DisconnectedByPeer (-1)].
Proof.
  intros polls result.
  destruct (receive_hook_early_return (H := quiet_environment) 0 polls (busy_client 1000)
              (loop_client (receive_loop (calculate_deadline 0 10000) polls
                              (busy_client 1000))) false)
    as (Hhook & _ & _ & Hp & _ & _).
  - vm_compute. reflexivity.
  - subst result. rewrite Hhook. cbn [fst snd].
    split_and!; [reflexivity | exact Hp | vm_compute; reflexivity].
Defined.

(** ** What every run keeps *)

Lemma receive_byte_decoder_ok (now : micros_t) (b : Z) (c : TFRCTPowerClient) :
  decoder_ok c -> pending_response_used c <> 12%nat -> decoder_ok (receive_byte now b c).
Proof.
  intros (Hlen & Hused & Hempty) Hroom.
  destruct (beacon_update_keeps now b c) as (Kw & Kl & Kb & Ku & _).
  rewrite receive_byte_unfold.
  assert (Hstep : decoder_ok (unescape_step b (beacon_update now b c))).
  { unfold unescape_step, decoder_ok. rewrite Kw, Kl.
    destruct (wait_for_start c) eqn:Hwait.
    - destruct ((b =? START) && negb (last_received_byte c =? ESCAPE)); cbn;
        rewrite ?Kb, ?Ku, ?Kw; split_and!; try assumption; try lia;
        solve [intros; discriminate | intros; apply Hempty; reflexivity].
    - repeat match goal with
             | |- context [if ?x then _ else _] => destruct x
             end; cbn; rewrite ?length_insert, ?Kb, ?Ku, ?Kw;
        split_and!; try assumption; try lia; intros; congruence. }
  destruct Hstep as (Hlen' & Hused' & Hempty').
  unfold check_response_header, decoder_ok.
  repeat match goal with
         | |- context [if ?x then _ else _] => destruct x
         end; cbn; split_and!; try assumption; try lia; try reflexivity.
Qed.

Lemma receive_loop_decoder_ok (deadline : micros_t) (polls : list Poll)
  (c : TFRCTPowerClient) :
  decoder_ok c -> decoder_ok (loop_client (receive_loop deadline polls c)).
Proof.
  revert c. induction polls as [|poll polls IH]; intros c Hok; simpl.
  - destruct (_ =? _)%nat; exact Hok.
  - destruct (Nat.eqb_spec (pending_response_used c) 12); [exact Hok|].
    destruct (deadline_elapsed _ _); [exact Hok|].
    destruct (received poll) as [error_number| |received_byte].
    + destruct (negb _ && negb _); exact Hok.
    + exact Hok.
    + apply IH, receive_byte_decoder_ok; assumption.
Qed.

Section TidyRuns.
Context `{Environment}.
Hypothesis callables_passive : passive.

(** Effects that concern no transaction, and changes that keep the
    transactions held. *)
Lemma tidy_ext (c c' : TFRCTPowerClient) (evs : list Event) :
  tidy c ->
  decoder_ok c' ->
  pending_response_used c' <> 12%nat ->
  trace c' = trace c ++ evs ->
  Forall unowned evs ->
  Forall reported_ok evs ->
  outstanding c' = outstanding c ->
  (length (scheduled_transaction_head c') <= length (scheduled_transaction_head c))%nat ->
  heap_next c' = heap_next c ->
  tidy c'.
Proof.
  intros (_ & HQ & (HF & Hcb) & HR) Hdec Hroom Htr Hevs Hrep Hout Hq Hheap.
  destruct (unowned_silent evs Hevs) as (Hc & _ & _).
  unfold tidy. rewrite Htr, Hout, Hheap, completed_app, Hc, app_nil_r.
  split_and!; try assumption; try lia.
  apply Forall_app. split; assumption.
Qed.

Lemma tidy_log (e : Event) (c : TFRCTPowerClient) :
  unowned e -> reported_ok e -> tidy c -> tidy (log e c).
Proof.
  intros He Hrep Htidy. pose proof Htidy as ((Hdec & Hroom) & _).
  apply (tidy_ext c _ [e]); try reflexivity; try assumption.
  - constructor; [exact He | constructor].
  - constructor; [exact Hrep | constructor].
Qed.

(** Finishing the first transactions held. *)
Lemma tidy_finish (c c' : TFRCTPowerClient) (result : Result.t) (value : float)
  (l rest : list TFRCTPowerClientTransaction) :
  tidy c ->
  result_ok result value ->
  decoder_ok c' ->
  pending_response_used c' <> 12%nat ->
  outstanding c = l ++ rest ->
  trace c' = trace c ++ flat_map (finish_events result value) l ->
  outstanding c' = rest ->
  (length (scheduled_transaction_head c') <= length (scheduled_transaction_head c))%nat ->
  heap_next c' = heap_next c ->
  tidy c'.
Proof.
  intros (_ & HQ & (HF & Hcb) & HR) Hres Hdec Hroom Hsplit Htr Hout Hq Hheap.
  rewrite Hsplit in HF, Hcb. apply Forall_app in Hcb as [Hl Hrest].
  destruct (finish_events_paired result value l Hl) as (Hc & _ & _).
  unfold tidy. rewrite Htr, Hout, Hheap, completed_app, Hc.
  split_and!; try assumption; try lia.
  - rewrite <- app_assoc, <- map_app. exact HF.
  - apply Forall_app. split; [exact HR|].
    clear -Hres. induction l as [|t l IH]; [constructor|].
    change (flat_map (finish_events result value) (t :: l))
      with (finish_events result value t ++ flat_map (finish_events result value) l).
    apply Forall_app. split; [|exact IH].
    unfold finish_events.
    apply Forall_cons. split; [exact I|].
    apply Forall_cons. split; [|apply Forall_nil_2].
    destruct (callback t); [exact Hres | exact I].
Qed.

Lemma tidy_finish_pending_transaction (result : Result.t) (value : float)
  (c : TFRCTPowerClient) :
  result_ok result value -> tidy c -> tidy (finish_pending_transaction result value c).
Proof.
  intros Hres Htidy. destruct (pending_transaction c) as [t|] eqn:Hp.
  - rewrite (finish_pending_transaction_passive callables_passive _ _ _ t Hp).
    pose proof Htidy as ((Hdec & Hroom) & _).
    apply (tidy_finish c _ result value [t] (scheduled_transaction_head c));
      try reflexivity; try assumption.
    unfold outstanding. rewrite Hp. reflexivity.
  - rewrite (finish_pending_transaction_none _ _ _ Hp). exact Htidy.
Qed.

Lemma result_ok_nan (result : Result.t) :
  result <> Result.DisconnectedByPeer -> result <> Result.ReceiveFailed ->
  result_ok result NAN.
Proof. intros H1 H2. repeat split; assumption. Qed.

Lemma tidy_read (id_ : Z) (timeout_ : micros_t)
  (callback_ : TFRCTPowerClientTransactionCallback) (c : TFRCTPowerClient) :
  tidy c -> tidy (read id_ timeout_ callback_ c).
Proof.
  intros Htidy. unfold read.
  destruct callback_ as [k|]; [|exact Htidy].
  destruct (timeout_ <? 0).
  { rewrite (invoke_passive callables_passive).
    apply tidy_log; [exact I | apply result_ok_nan; discriminate | exact Htidy]. }
  destruct (socket_fd c <? 0).
  { rewrite (invoke_passive callables_passive).
    apply tidy_log; [exact I | apply result_ok_nan; discriminate | exact Htidy]. }
  destruct (Nat.leb_spec TF_RCT_POWER_CLIENT_MAX_SCHEDULED_TRANSACTION_COUNT
              (length (scheduled_transaction_head c))) as [_|Hroom].
  { rewrite (invoke_passive callables_passive).
    apply tidy_log; [exact I | apply result_ok_nan; discriminate | exact Htidy]. }
  destruct Htidy as (HD & HQ & (HF & Hcb) & HR).
  set (transaction := {| addr := heap_next c; id := id_; timeout := timeout_;
                         callback := Some k |}).
  set (c' := set_scheduled_transaction_head _ _).
  assert (Hout : outstanding c' = outstanding c ++ [transaction]).
  { unfold outstanding. rewrite <- app_assoc. reflexivity. }
  unfold tidy. rewrite Hout.
  change (trace c') with (trace c). change (heap_next c') with (S (heap_next c)).
  split_and!.
  - exact (proj1 HD).
  - exact (proj2 HD).
  - subst c'. cbn. rewrite length_app. cbn. lia.
  - rewrite map_app, app_assoc, HF, seq_S. reflexivity.
  - apply Forall_app. split; [exact Hcb|].
    constructor; [eexists; reflexivity | constructor].
  - exact HR.
Qed.

Lemma tidy_tick_hook (now : micros_t) (sent : SendResult) (c : TFRCTPowerClient) :
  tidy c -> tidy (tick_hook now sent c).
Proof.
  intros Htidy. unfold tick_hook.
  assert (Htidy1 : tidy (check_pending_transaction_timeout now c)).
  { unfold check_pending_transaction_timeout.
    destruct (pending_transaction c); [|exact Htidy].
    destruct (deadline_elapsed _ _); [|exact Htidy].
    apply tidy_finish_pending_transaction; [apply result_ok_nan; discriminate | exact Htidy]. }
  set (c1 := check_pending_transaction_timeout now c) in *.
  destruct (pending_transaction c1) as [p|] eqn:Hp; [exact Htidy1|].
  destruct (scheduled_transaction_head c1) as [|t next] eqn:Hq; [exact Htidy1|].
  set (c2 := log _ _).
  assert (Htidy2 : tidy c2).
  { pose proof Htidy1 as ((Hdec & Hroom) & _).
    apply (tidy_ext c1 _ [EvSend (escape_request (request_frame (id t))) sent]);
      try reflexivity; try assumption.
    - constructor; [exact I | constructor].
    - constructor; [exact I | constructor].
    - unfold outstanding. rewrite Hp, Hq. reflexivity.
    - cbn. rewrite Hq. cbn. lia. }
  destruct sent as [|saved_errno]; [exact Htidy2|].
  apply tidy_log; [exact I | exact I |].
  apply tidy_finish_pending_transaction; [apply result_ok_nan; discriminate | exact Htidy2].
Qed.

Lemma tidy_receive_hook (now : micros_t) (polls : list Poll) (c : TFRCTPowerClient) :
  tidy c -> tidy (snd (receive_hook now polls c)).
Proof.
  intros Htidy. pose proof Htidy as ((Hdec & Hroom) & _).
  unfold receive_hook.
  pose proof (receive_loop_decoder_ok (calculate_deadline now 10000) polls c Hdec) as Hdec'.
  destruct (receive_loop (calculate_deadline now 10000) polls c) as [value c'|c'] eqn:Hloop;
    cbn [loop_client snd] in *.
  - destruct (receive_loop_returned _ _ _ _ _ Hloop) as (Hu & _ & H2 & H3 & _ & H5 & H6).
    assert (Hout : outstanding c' = outstanding c) by (unfold outstanding; congruence).
    destruct H6 as [Htr | (_ & reason & error_number & Htr)].
    + apply (tidy_ext c _ []); try assumption; try constructor.
      * rewrite app_nil_r. exact Htr.
      * rewrite H2. lia.
    + apply (tidy_ext c _ [EvDisconnect reason error_number]); try assumption.
      * constructor; [exact I | constructor].
      * constructor; [exact I | constructor].
      * rewrite H2. lia.
  - destruct (receive_loop_full _ _ _ _ Hloop) as (Hu & Hp & _ & Hq & Hheap & _ & Htr).
    assert (Hreset : tidy (reset_pending_response c')).
    { apply (tidy_ext c _ []).
      - exact Htidy.
      - destruct Hdec' as (Hlen & _ & _). repeat split; [exact Hlen | cbn; lia].
      - cbn. discriminate.
      - cbn. rewrite app_nil_r. exact Htr.
      - constructor.
      - constructor.
      - unfold outstanding. cbn. congruence.
      - cbn. rewrite Hq. lia.
      - exact Hheap. }
    unfold dispatch_response.
    destruct (pending_transaction c') as [t|]; [|exact Hreset].
    destruct (negb (id t =? _)); [exact Hreset|].
    destruct (negb (_ =? _)).
    + apply tidy_finish_pending_transaction;
        [apply result_ok_nan; discriminate | exact Hreset].
    + apply tidy_finish_pending_transaction; [|exact Hreset].
      repeat split; try discriminate. intros Hne. contradiction.
Qed.

Lemma tidy_close_hook (c : TFRCTPowerClient) : tidy c -> tidy (close_hook c).
Proof.
  intros Htidy. pose proof Htidy as ((Hdec & Hroom) & _).
  unfold close_hook. rewrite (finish_all_transactions_passive callables_passive).
  apply (tidy_finish c _ Result.Aborted NAN (outstanding c) []).
  - exact Htidy.
  - apply result_ok_nan; discriminate.
  - destruct Hdec as (Hlen & _ & _). repeat split; [exact Hlen | cbn; lia].
  - cbn. discriminate.
  - rewrite app_nil_r. reflexivity.
  - reflexivity.
  - reflexivity.
  - cbn. lia.
  - reflexivity.
Qed.

Lemma tidy_step (c : TFRCTPowerClient) (call : Call) : tidy c -> tidy (step c call).
Proof.
  intros Htidy. destruct call as [id_ timeout_ callback_|now sent|now polls| |fd]; simpl.
  - apply tidy_read. exact Htidy.
  - apply tidy_tick_hook. exact Htidy.
  - apply tidy_receive_hook. exact Htidy.
  - apply tidy_close_hook. exact Htidy.
  - pose proof Htidy as ((Hdec & Hroom) & _).
    apply (tidy_ext c _ []); try assumption; try constructor; try reflexivity.
    cbn. rewrite app_nil_r. reflexivity.
Qed.

Lemma tidy_run (calls : list Call) (c : TFRCTPowerClient) : tidy c -> tidy (run calls c).
Proof.
  revert c. induction calls as [|call calls IH]; intros c Htidy; simpl.
  - exact Htidy.
  - apply IH, tidy_step, Htidy.
Qed.

Lemma tidy_idle_client (fd : Z) : tidy (idle_client fd).
Proof.
  unfold tidy, decoder_ok. cbn. split_and!; try reflexivity; try lia; try constructor.
Qed.

End TidyRuns.

Lemma quiet_environment_passive : passive (H := quiet_environment).
Proof. intros k result value c. reflexivity. Qed.

(** Calls to run examples on: two transactions are accepted, the first is
    sent, half a response arrives, the first times out and the second is
    sent. *)
Lemma example_calls_run :
  let calls := [CallRead 7 1000 (Some 4%nat); CallRead 9 2000 (Some 5%nat);
                CallTick 0 Sent; CallReceive 1 (deliver 1 [START; 5; 8; 0; 0]);
                CallTick 1001 Sent] in
  let c := run (H := quiet_environment) calls (idle_client 3) in
  pending_transaction c = Some transaction_b
  /\ completed (trace c) = [0%nat]
  /\ pending_response_used c = 4%nat.
Proof. vm_compute. repeat split. Qed.

(** X9: the response buffer is never overrun. Along every run of the entry
    points from a client that holds nothing, with callables that do not call
    back into the client, the buffer keeps its twelve bytes, between calls
    the cursor is below twelve, and nothing is collected while the decoder
    waits for a start byte; and during any [receive_hook] that follows, the
    cursor does not pass twelve, so every byte is stored inside the array. *)
Theorem pending_response_never_overrun `{Environment} (fd : Z) (calls : list Call) :
  passive ->
  let c := run calls (idle_client fd) in
  length (pending_response c) = 12%nat
  /\ (pending_response_used c < 12)%nat
  /\ (wait_for_start c = true -> pending_response_used c = 0%nat)
  /\ (forall deadline polls,
        let c' := loop_client (receive_loop deadline polls c) in
        length (pending_response c') = 12%nat /\ (pending_response_used c' <= 12)%nat).
Proof.
  intros Hpassive c.
  destruct (tidy_run Hpassive calls (idle_client fd) (tidy_idle_client fd))
    as (((Hlen & Hused & Hempty) & Hroom) & _).
  fold c in Hlen, Hused, Hempty, Hroom.
  split_and!; try assumption; [lia|].
  intros deadline polls c'.
  destruct (receive_loop_decoder_ok deadline polls c) as (Hlen' & Hused' & _).
  { repeat split; assumption. }
  split; assumption.
Qed.

Lemma pending_response_never_overrun_witness :
  let calls := [CallRead 7 1000 (Some 4%nat); CallRead 9 2000 (Some 5%nat);
                CallTick 0 Sent; CallReceive 1 (deliver 1 [START; 5; 8; 0; 0]);
                CallTick 1001 Sent] in
  let c := run (H := quiet_environment) calls (idle_client 3) in
  (pending_response_used c < 12)%nat.
Proof.
  intros calls c.
  destruct (pending_response_never_overrun (H := quiet_environment) 3 calls
              quiet_environment_passive) as (_ & Hused & _).
  exact Hused.
Defined.

(** X10: the scheduled list stays within its bound. Along every such run the
    list holds at most TF_RCT_POWER_CLIENT_MAX_SCHEDULED_TRANSACTION_COUNT
    transactions; the pending transaction does not count, so the client
    holds at most one more than that. *)
Theorem scheduled_transactions_bounded `{Environment} (fd : Z) (calls : list Call) :
  passive ->
  let c := run calls (idle_client fd) in
  (length (scheduled_transaction_head c)
   <= TF_RCT_POWER_CLIENT_MAX_SCHEDULED_TRANSACTION_COUNT)%nat
  /\ (length (outstanding c)
      <= S TF_RCT_POWER_CLIENT_MAX_SCHEDULED_TRANSACTION_COUNT)%nat.
Proof.
  intros Hpassive c.
  destruct (tidy_run Hpassive calls (idle_client fd) (tidy_idle_client fd))
    as (_ & HQ & _).
  fold c in HQ. split; [exact HQ|].
  unfold outstanding. rewrite length_app.
  destruct (pending_transaction c); cbn; lia.
Qed.

Lemma scheduled_transactions_bounded_witness :
  let calls := repeat (CallRead 7 1000 (Some 4%nat)) 20 in
  let c := run (H := quiet_environment) calls (idle_client 3) in
  (length (scheduled_transaction_head c) <= 8)%nat.
Proof.
  intros calls c.
  destruct (scheduled_transactions_bounded (H := quiet_environment) 3 calls
              quiet_environment_passive) as (HQ & _).
  exact HQ.
Defined.

(** X11: first in, first out. Along every such run the transactions whose
    callable was invoked, in the order of the invocations, followed by the
    pending transaction and the scheduled ones in link order, are the
    transactions [read] has created, in the order of their creation:
    transactions are promoted and finished in the order they were
    accepted, none twice and none skipped. *)
Theorem transactions_first_in_first_out `{Environment} (fd : Z) (calls : list Call) :
  passive ->
  let c := run calls (idle_client fd) in
  completed (trace c) ++ map addr (outstanding c) = seq 0 (heap_next c).
Proof.
  intros Hpassive c.
  destruct (tidy_run Hpassive calls (idle_client fd) (tidy_idle_client fd))
    as (_ & _ & (HF & _) & _).
  exact HF.
Qed.

Lemma transactions_first_in_first_out_witness :
  let calls := [CallRead 7 1000 (Some 4%nat); CallRead 9 2000 (Some 5%nat);
                CallTick 0 Sent; CallReceive 1 (deliver 1 [START; 5; 8; 0; 0]);
                CallTick 1001 Sent] in
  let c := run (H := quiet_environment) calls (idle_client 3) in
  completed (trace c) ++ map addr (outstanding c) = seq 0 (heap_next c).
Proof.
  intros calls c.
  exact (transactions_first_in_first_out (H := quiet_environment) 3 calls
           quiet_environment_passive).
Defined.

(** X12: what callbacks are told. Along every such run no callback is ever
    invoked with DisconnectedByPeer or ReceiveFailed, and every invocation
    with a result other than Success carries NAN. *)
Theorem callbacks_told `{Environment} (fd : Z) (calls : list Call) :
  passive ->
  let c := run calls (idle_client fd) in
  forall owner k result value,
    EvCallback owner k result value ∈ trace c ->
    result <> Result.DisconnectedByPeer
    /\ result <> Result.ReceiveFailed
    /\ (result <> Result.Success -> value = NAN).
Proof.
  intros Hpassive c owner k result value Hin.
  destruct (tidy_run Hpassive calls (idle_client fd) (tidy_idle_client fd))
    as (_ & _ & _ & HR).
  fold c in HR. rewrite Forall_forall in HR.
  exact (HR _ Hin).
Qed.

Lemma callbacks_told_witness :
  let calls := [CallRead 7 1000 (Some 4%nat); CallTick 0 Sent; CallTick 2000 Sent] in
  let c := run (H := quiet_environment) calls (idle_client 3) in
  EvCallback (Some 0%nat) 4 Result.Timeout NAN ∈ trace c
  /\ (Result.Timeout <> Result.Success -> NAN = NAN).
Proof.
  intros calls c.
  assert (Hin : EvCallback (Some 0%nat) 4 Result.Timeout NAN ∈ trace c).
  { vm_compute. apply list_elem_of_In. right. right. left. reflexivity. }
  split; [exact Hin|].
  destruct (callbacks_told (H := quiet_environment) 3 calls quiet_environment_passive
              (Some 0%nat) 4%nat Result.Timeout NAN Hin) as (_ & _ & Hnan).
  exact Hnan.
Defined.

(** ** close_hook *)

(** X13: teardown leaves a clean client and can be repeated. With callables
    that do not call back into the client, [close_hook] leaves no pending
    and no scheduled transaction, the decoder waiting for a start byte with
    nothing collected, [last_received_byte] and the beacon state zero, and
    the socket and the bytes of the buffer as they were; the pending
    deadline is cleared only if a transaction was pending. On the client it
    leaves, a second [close_hook] and any [tick_hook] change nothing, so no
    callback is invoked again. *)
Theorem close_hook_leaves_clean_client `{Environment} (c : TFRCTPowerClient) :
  passive ->
  let c' := close_hook c in
  (pending_transaction c' = None /\ scheduled_transaction_head c' = [])
  /\ (wait_for_start c' = true /\ pending_response_used c' = 0%nat
      /\ last_received_byte c' = 0 /\ pending_response c' = pending_response c)
  /\ (bootloader_magic_number c' = 0 /\ bootloader_last_detected c' = 0)
  /\ socket_fd c' = socket_fd c
  /\ pending_transaction_deadline c'
     = match pending_transaction c with
       | Some _ => 0
       | None => pending_transaction_deadline c
       end
  /\ close_hook c' = c'
  /\ (forall now sent, tick_hook now sent c' = c').
Proof.
  intros Hpassive c'.
  assert (Hc' : c' = set_trace
                       (trace c ++ flat_map (finish_events Result.Aborted NAN) (outstanding c))
                       (set_scheduled_transaction_head []
                          (set_pending_transaction_deadline
                             (match pending_transaction c with
                              | Some _ => 0
                              | None => pending_transaction_deadline c
                              end)
                             (set_pending_transaction None
                                (reset_pending_response
                                   (set_bootloader_last_detected 0
                                      (set_bootloader_magic_number 0
                                         (set_last_received_byte 0 c)))))))).
  { subst c'. unfold close_hook. rewrite (finish_all_transactions_passive Hpassive).
    reflexivity. }
  clearbody c'. subst c'.
  set (tr' := trace c ++ flat_map (finish_events Result.Aborted NAN) (outstanding c)).
  clearbody tr'.
  destruct c as [fd scheduled pending deadline waiting last_byte response used
                 magic detected next tr].
  split_and!.
  1-10: lazy; reflexivity.
  - unfold close_hook. rewrite (finish_all_transactions_passive Hpassive).
    lazy -[app]. rewrite app_nil_r. reflexivity.
  - intros now sent. lazy. reflexivity.
Qed.

Lemma close_hook_leaves_clean_client_witness :
  let c' := close_hook (H := quiet_environment) (busy_client 1000) in
  close_hook (H := quiet_environment) c' = c'.
Proof.
  intros c'.
  destruct (close_hook_leaves_clean_client (H := quiet_environment) (busy_client 1000)
              quiet_environment_passive) as (_ & _ & _ & _ & _ & Hagain & _).
  exact Hagain.
Defined.

(** ** From read to the callback *)

(** X14: a transaction that is submitted, sent and answered succeeds. Let
    the client be connected and hold no transaction, let the bound of the
    scheduled list be positive and the timeout not negative, let the decoder
    not be full, hold nothing while it waits for a start byte and have last
    received a byte other than ESCAPE, and let [frame] be twelve bytes with
    the command 5, the length 8, the id of the transaction, the checksum of
    its first ten bytes in the last two, and no ESCAPE byte directly followed
    by a marker. Then [read], a [tick_hook] whose [send] succeeds and a
    [receive_hook] that receives the escaped frame invoke the callable of
    the transaction once, with Success and the float of bytes 6 to 9, on a
    client that holds no transaction; before that the tick has sent the
    escaped request and set the deadline to its clock reading plus the
    timeout. *)
Theorem read_tick_receive_success `{Environment} (id_ : Z) (timeout_ : micros_t)
  (k : nat) (now now0 now1 : micros_t) (frame : list Z) (c : TFRCTPowerClient) :
  pending_transaction c = None ->
  scheduled_transaction_head c = [] ->
  0 <= socket_fd c ->
  (0 < TF_RCT_POWER_CLIENT_MAX_SCHEDULED_TRANSACTION_COUNT)%nat ->
  0 <= timeout_ ->
  length (pending_response c) = 12%nat ->
  pending_response_used c <> 12%nat ->
  (wait_for_start c = true -> pending_response_used c = 0%nat) ->
  last_received_byte c <> ESCAPE ->
  length frame = 12%nat ->
  frame !! 0%nat = Some 5 ->
  frame !! 1%nat = Some 8 ->
  Forall is_byte frame ->
  escape_clash frame = false ->
  frame_id frame = id_ ->
  ccitt_false (take 10 frame) = frame_checksum frame ->
  now1 <= now0 + 10000 ->
  let t := {| addr := heap_next c; id := id_; timeout := timeout_; callback := Some k |} in
  let c2 := tick_hook now Sent (read id_ timeout_ (Some k) c) in
  pending_transaction c2 = Some t
  /\ pending_transaction_deadline c2 = now + timeout_
  /\ exists seen,
       snd (receive_hook now0 (deliver now1 (wire_frame frame)) c2)
       = callback_body k Result.Success (frame_value frame) seen
       /\ pending_transaction seen = None
       /\ scheduled_transaction_head seen = []
       /\ trace seen
          = trace c ++ [EvSend (wire_frame (request_frame id_)) Sent;
                        EvDelete (set_callback None t);
                        EvCallback (Some (heap_next c)) k Result.Success
                          (frame_value frame)].
Proof.
  intros Hp Hq Hfd Hmax Htimeout Hlen Hused Hempty Hlast
         Hframe H0 H1 Hbytes Hclash Hid Hcrc Hnow t c2.
  assert (Hc2 : c2 = log (EvSend (wire_frame (request_frame id_)) Sent)
                       (set_pending_transaction_deadline (now + timeout_)
                          (set_scheduled_transaction_head []
                             (set_pending_transaction (Some t)
                                (set_scheduled_transaction_head [t]
                                   (set_heap_next (S (heap_next c)) c)))))).
  { subst c2. rewrite read_accepted by (rewrite ?Hq; cbn; lia || assumption).
    rewrite Hq. unfold tick_hook.
    rewrite check_pending_transaction_timeout_idle by exact Hp.
    cbn [pending_transaction scheduled_transaction_head set_scheduled_transaction_head
         set_heap_next app].
    rewrite Hp. fold t.
    rewrite escape_request_wire_frame by (rewrite length_request_frame; lia).
    reflexivity. }
  split; [rewrite Hc2; reflexivity|].
  split; [rewrite Hc2; reflexivity|].
  destruct (receive_loop_frame (calculate_deadline now0 10000) now1 frame [] c2)
    as (c' & Hloop & Hbuf & Hfull & _ & (_ & Dq & Dp & _ & _ & Dtr)).
  - unfold deadline_elapsed, calculate_deadline. apply Z.ltb_ge. exact Hnow.
  - rewrite Hc2. exact Hlen.
  - rewrite Hc2. exact Hused.
  - rewrite Hc2. exact Hempty.
  - rewrite Hc2. exact Hlast.
  - exact Hframe.
  - exact H0.
  - exact H1.
  - exact Hclash.
  - rewrite app_nil_r in Hloop.
    exists (log (EvCallback (Some (heap_next c)) k Result.Success (frame_value frame))
              (released t (reset_pending_response c'))).
    split_and!.
    + unfold receive_hook. rewrite Hloop. cbn [snd].
      rewrite (dispatch_response_validated c2 c' Hfull)
        by (rewrite ?Hbuf; assumption).
      rewrite Hbuf. unfold validated.
      replace (pending_transaction c2) with (Some t) by (rewrite Hc2; reflexivity).
      cbn [id t]. rewrite Hid, Z.eqb_refl, Hcrc, Z.eqb_refl. reflexivity.
    + reflexivity.
    + cbn. rewrite Dq, Hc2. reflexivity.
    + cbn. rewrite Dtr, Hc2. cbn. rewrite <- !app_assoc. reflexivity.
Qed.

(** The transaction for id 7 on a fresh client, answered with the bits of
    10.375. *)
Lemma read_tick_receive_success_witness :
  let frame := response_frame 7 {| float_bits := 0x41260000 |} in
  let c2 := tick_hook (H := quiet_environment) 0 Sent
              (read (H := quiet_environment) 7 1000 (Some 4%nat) (idle_client 3)) in
  exists seen,
    snd (receive_hook (H := quiet_environment) 5 (deliver 6 (wire_frame frame)) c2) = seen
    /\ trace seen
       = [EvSend (wire_frame (request_frame 7)) Sent;
          EvDelete {| addr := 0; id := 7; timeout := 1000; callback := None |};
          EvCallback (Some 0%nat) 4 Result.Success (frame_value frame)].
Proof.
  intros frame c2.
  destruct (read_tick_receive_success (H := quiet_environment) 7 1000 4 0 5 6 frame
              (idle_client 3)) as (_ & _ & seen & Hhook & _ & _ & Htr).
  - reflexivity.
  - reflexivity.
  - cbn. lia.
  - cbn. lia.
  - lia.
  - reflexivity.
  - cbn. discriminate.
  - reflexivity.
  - cbn. discriminate.
  - reflexivity.
  - reflexivity.
  - reflexivity.
  - bytes_done.
  - vm_compute. reflexivity.
  - vm_compute. reflexivity.
  - vm_compute. reflexivity.
  - lia.
  - exists seen. split; [exact Hhook | exact Htr].
Defined.

(** ** The id in a request *)

(** X15: the id that validation reads from bytes 2 to 5 of a frame is, on
    the raw request [tick_hook] builds for a 32-bit id, that id; so requests
    for different ids differ. *)
Theorem request_frame_carries_id :
  (forall id_, 0 <= id_ < 2 ^ 32 -> response_id (request_frame id_) = id_)
  /\ (forall id1 id2, 0 <= id1 < 2 ^ 32 -> 0 <= id2 < 2 ^ 32 ->
        request_frame id1 = request_frame id2 -> id1 = id2).
Proof.
  assert (Hid : forall id_, 0 <= id_ < 2 ^ 32 -> response_id (request_frame id_) = id_).
  { intros id_ Hrange. rewrite request_frame_bytes.
    set (crc := crc16ccitt _ 6). clearbody crc.
    assert (Hbyte : forall x, is_byte (x mod 2 ^ 8)).
    { intros x. unfold is_byte. change (2 ^ 8) with 256. apply Z.mod_pos_bound. lia. }
    rewrite response_id_big_endian by (cbn; apply Hbyte).
    cbn [lookup_total list_lookup_total].
    change (2 ^ 32) with 4294967296 in Hrange.
    change (2 ^ 24) with 16777216. change (2 ^ 16) with 65536. change (2 ^ 8) with 256.
    Z.div_mod_to_equations. lia. }
  split; [exact Hid|].
  intros id1 id2 H1 H2 Heq.
  rewrite <- (Hid id1 H1), <- (Hid id2 H2), Heq. reflexivity.
Qed.

Lemma request_frame_carries_id_witness : response_id (request_frame 0x2D2B) = 0x2D2B.
Proof.
  destruct request_frame_carries_id as [Hid _].
  apply Hid. lia.
Defined.
